(** * ingredient_phrase_tagger/training/translator.py

    A shallow embedding of the row translator: the numeric parser
    [_parseNumbers], the token-to-field matcher [_matchUp], the BIO
    prefixer [_addPrefixes], the tag resolver [_bestTag] and the
    orchestrating [translate_row], followed by the properties of each.

    The program is Python 2 ([basestring]); strings are byte strings and
    are modelled by [string].  Records are Python dicts and are modelled by
    [gmap string value].  Exceptions are modelled by the [result] monad. *)

From Stdlib Require Import ZArith QArith Ascii String List Bool Lia.
From Stdlib Require Import Floats.SpecFloat.
From stdpp Require Import gmap strings list.

Local Open Scope string_scope.
Local Open Scope list_scope.

(** ** Exceptions *)

Module Py.

(** The exceptions of the translator and of the conversions it calls. *)
Inductive exn : Type :=
  | KeyError (key : string)
  | ZeroDivisionError
  | OverflowError
  | ValueError
  | TypeError.

Inductive result (A : Type) : Type :=
  | Return (a : A)
  | Raise (e : exn).

Arguments Return {A} a.
Arguments Raise {A} e.

Definition bind {A B : Type} (m : result A) (k : A -> result B) : result B :=
  match m with
  | Return a => k a
  | Raise e => Raise e
  end.

End Py.

Import Py.

Notation "'let!' x ':=' m 'in' k" := (Py.bind m (fun x => k))
  (at level 10, x name, m at level 100, k at level 200).

(** A list comprehension [[f(t) for t in l]] whose body may raise: elements
    are evaluated left to right and the first exception ends the loop. *)
Fixpoint comprehension {A B : Type} (f : A -> result B) (l : list A)
  : result (list B) :=
  match l with
  | [] => Return []
  | a :: l' =>
      let! b := f a in
      let! bs := comprehension f l' in
      Return (b :: bs)
  end.

(** ** Regular expressions

    The three patterns of [_parseNumbers] are sequences of atoms; [re.match]
    tries them at position 0 with greedy, backtracking repetition. *)

Module Re.

Inductive atom : Type :=
  | Bol                                   (* ^ *)
  | Eol                                   (* $ *)
  | Chr (c : ascii)                       (* a literal character *)
  | Cls (capture : bool) (p : ascii -> bool)   (* \d or (\d) *)
  | Plus (capture : bool) (p : ascii -> bool). (* \d+, \s+ or (\d+) *)

(** [\d] without [re.UNICODE]: the ten ASCII digits. *)
Definition digit (c : ascii) : bool :=
  let n := nat_of_ascii c in (48 <=? n)%nat && (n <=? 57)%nat.

(** [\s] without [re.UNICODE] or [re.LOCALE]: space, \t, \n, \v, \f, \r. *)
Definition space (c : ascii) : bool :=
  let n := nat_of_ascii c in
  ((9 <=? n)%nat && (n <=? 13)%nat) || (n =? 32)%nat.

Definition newline : ascii := ascii_of_nat 10.

(** [$] without [re.MULTILINE]: the end of the string, or just before a
    newline that is the last character of the string. *)
Definition at_eol (s : string) : bool :=
  match s with
  | EmptyString => true
  | String c EmptyString => Ascii.eqb c newline
  | _ => false
  end.

Definition keep (capture : bool) (g : string) (gs : list string) : list string :=
  if capture then g :: gs else gs.

(** One or more characters of class [p], greedy: the longer run is tried
    first and the continuation [k] is retried on a shorter run when the rest
    of the pattern fails.  [taken] is the run consumed so far. *)
Fixpoint plus_run {A : Type} (p : ascii -> bool)
    (k : string -> string -> option A) (taken : string) (s : string)
  : option A :=
  match s with
  | String c s' =>
      if p c then
        let taken' := taken +:+ String c EmptyString in
        match plus_run p k taken' s' with
        | Some r => Some r
        | None => k taken' s'
        end
      else None
  | EmptyString => None
  end.

(** [run r start s]: match the atoms [r] against [s]; [start] tells whether
    [s] begins at position 0 of the subject.  The result is the list of
    captured groups, in order. *)
Fixpoint run (r : list atom) (start : bool) (s : string) : option (list string) :=
  match r with
  | [] => Some []
  | Bol :: r' => if start then run r' start s else None
  | Eol :: r' => if at_eol s then run r' start s else None
  | Chr c :: r' =>
      match s with
      | String c' s' => if Ascii.eqb c c' then run r' false s' else None
      | EmptyString => None
      end
  | Cls cap p :: r' =>
      match s with
      | String c s' =>
          if p c then
            option_map (keep cap (String c EmptyString)) (run r' false s')
          else None
      | EmptyString => None
      end
  | Plus cap p :: r' =>
      plus_run p (fun g s' => option_map (keep cap g) (run r' false s')) "" s
  end.

(** [re.match(pattern, s)] *)
Definition rmatch (r : list atom) (s : string) : option (list string) :=
  run r true s.

End Re.

(** '^\d+$' *)
Definition re_integer : list Re.atom :=
  [Re.Bol; Re.Plus false Re.digit; Re.Eol].

(** r'(\d+)\s+(\d)/(\d)' *)
Definition re_mixed : list Re.atom :=
  [Re.Plus true Re.digit; Re.Plus false Re.space;
   Re.Cls true Re.digit; Re.Chr "/"; Re.Cls true Re.digit].

(** r'^(\d)/(\d)$' *)
Definition re_fraction : list Re.atom :=
  [Re.Bol; Re.Cls true Re.digit; Re.Chr "/"; Re.Cls true Re.digit; Re.Eol].

(** *** The patterns read as scanners

    The properties below compare [re.match] on the three patterns with
    these direct scanners. *)

Module Scan.

Import Re.

(** The longest prefix of [s] in class [p], and what follows it. *)
Fixpoint span (p : ascii -> bool) (s : string) : string * string :=
  match s with
  | String c s' =>
      if p c then let (g, r) := span p s' in (String c g, r)
      else (EmptyString, s)
  | EmptyString => (EmptyString, EmptyString)
  end.

(** A continuation that fails whenever the text left starts in class [p]:
    after [p+] such a continuation can only succeed on the longest run. *)
Definition blocks {A : Type} (p : ascii -> bool)
    (k : string -> string -> option A) : Prop :=
  forall g c s, p c = true -> k g (String c s) = None.

Fixpoint all_of (p : ascii -> bool) (s : string) : bool :=
  match s with
  | EmptyString => true
  | String c s' => p c && all_of p s'
  end.

(** What follows a run does not continue it. *)
Definition stops (p : ascii -> bool) (r : string) : Prop :=
  match r with
  | EmptyString => True
  | String c _ => p c = false
  end.

Definition scan_integer (ss : string) : option (list string) :=
  match span digit ss with
  | (String _ _, r) => if at_eol r then Some [] else None
  | _ => None
  end.

Definition scan_mixed (ss : string) : option (list string) :=
  match span digit ss with
  | (String d ds, r1) =>
      match span space r1 with
      | (String _ _, String a (String c (String b _))) =>
          if digit a && Ascii.eqb "/" c && digit b
          then Some [String d ds; String a ""; String b ""]
          else None
      | _ => None
      end
  | _ => None
  end.

Definition scan_fraction (ss : string) : option (list string) :=
  match ss with
  | String a (String c (String b r)) =>
      if digit a && Ascii.eqb "/" c && digit b && at_eol r
      then Some [String a ""; String b ""]
      else None
  | _ => None
  end.

End Scan.

(** ** Numbers

    [float] is an IEEE 754 binary64 value, [decimal.Decimal] a decimal
    number.  Floats are [spec_float] with the library's correctly rounded
    operations; decimals are rationals kept in lowest terms. *)

Module Float.

Local Open Scope Z_scope.

Definition prec : Z := 53.
Definition emax : Z := 1024.

(** The float nearest to the integer [n] (ties to even); infinite when [n]
    is beyond the largest float. *)
Definition of_Z (n : Z) : spec_float := binary_normalize prec emax n 0 false.

Definition add (x y : spec_float) : spec_float := SFadd prec emax x y.

(** [x / y] on floats: Python raises instead of returning an infinity or a
    NaN when the divisor is zero. *)
Definition div (x y : spec_float) : result spec_float :=
  match y with
  | S754_zero _ => Raise ZeroDivisionError
  | _ => Return (SFdiv prec emax x y)
  end.

(** The correctly rounded quotient of two positive integers. *)
Definition of_ratio (s : bool) (n d : positive) : spec_float :=
  SFdiv prec emax (S754_finite s n 0) (S754_finite false d 0).

(** [round(x, 2)] of Python 2: the exact value of [x] is rounded to the
    nearest multiple of 1/100, halfway cases away from zero, and the
    resulting decimal is converted back to the nearest float.  Zeros,
    infinities and NaN round to themselves. *)
Definition round2 (x : spec_float) : spec_float :=
  match x with
  | S754_finite s m e =>
      match e with
      | Zneg k =>
          let d := Z.pow 2 (Zpos k) in
          match (2 * 100 * Zpos m + d) / (2 * d) with
          | Zpos r => of_ratio s r 100
          | _ => S754_zero s
          end
      | _ => x   (* an integer already *)
      end
  | _ => x
  end.

End Float.

Module Decimal.

Local Open Scope Z_scope.

Inductive t : Type :=
  | Fin (q : Q)
  | Inf
  | NaN.

(** [d1 == d2] on decimals compares values; a NaN equals nothing. *)
Definition eqb (d1 d2 : t) : bool :=
  match d1, d2 with
  | Fin q1, Fin q2 => Qeq_bool q1 q2
  | Inf, Inf => true
  | _, _ => false
  end.

(** The value [m * 2^e]. *)
Definition dyadic (m : positive) (e : Z) : Q :=
  match e with
  | Zneg k => Qred (Zpos m # Pos.pow 2 k)
  | _ => Qred ((Zpos m * Z.pow 2 e) # 1)
  end.

(** [decimal.Decimal(x)] for a float [x]: the exact value of [x]. *)
Definition of_float (x : spec_float) : t :=
  match x with
  | S754_zero _ => Fin 0
  | S754_infinity _ => Inf
  | S754_nan => NaN
  | S754_finite s m e => Fin (if s then Qopp (dyadic m e) else dyadic m e)
  end.

(** The decimal exponent [k] of [n/d]: [10^k <= n/d < 10^(k+1)]. *)
Fixpoint exponent (fuel : nat) (n d : Z) (k : Z) : Z :=
  match fuel with
  | O => k
  | S fuel' =>
      if (n <? d)%Z then exponent fuel' (10 * n)%Z d (k - 1)%Z
      else if (10 * d <=? n)%Z then exponent fuel' n (10 * d)%Z (k + 1)%Z
      else k
  end.

(** [n/d] rounded to the nearest integer, ties to even. *)
Definition round_half_even (n d : Z) : Z :=
  let q := (n / d)%Z in
  match (2 * (n mod d) ?= d)%Z with
  | Lt => q
  | Gt => (q + 1)%Z
  | Eq => if Z.even q then q else (q + 1)%Z
  end.

(** [n/d] rounded to [digits] significant decimal digits. *)
Definition round_sig (digits : Z) (n d : positive) : Q :=
  let fuel := Pos.to_nat (digits2_pos n + digits2_pos d) in
  let k := exponent fuel (Zpos n) (Zpos d) 0 in
  let shift := (digits - 1 - k)%Z in
  match shift with
  | Zneg p =>
      let r := round_half_even (Zpos n) (Zpos d * Z.pow 10 (Zpos p)) in
      Qred ((r * Z.pow 10 (Zpos p)) # 1)
  | _ =>
      let r := round_half_even (Zpos n * Z.pow 10 shift) (Zpos d) in
      Qred (r # Z.to_pos (Z.pow 10 shift))
  end.

(** [decimal.Decimal(str(x))] for a float [x]: [str] of Python 2 prints a
    float with 12 significant digits, correctly rounded. *)
Definition of_str_float (x : spec_float) : t :=
  match x with
  | S754_zero _ => Fin 0
  | S754_infinity _ => Inf
  | S754_nan => NaN
  | S754_finite s m e =>
      let q := dyadic m e in
      let r := round_sig 12 (Z.to_pos (Qnum q)) (Qden q) in
      Fin (if s then Qopp r else r)
  end.

End Decimal.

(** *** Numeric literals *)

Definition digit_value (c : ascii) : Z := (Z.of_nat (nat_of_ascii c) - 48)%Z.

Fixpoint digits_value (acc : Z) (s : string) : Z :=
  match s with
  | EmptyString => acc
  | String c s' => digits_value (10 * acc + digit_value c)%Z s'
  end.

Fixpoint all_digits (s : string) : bool :=
  match s with
  | EmptyString => true
  | String c s' => Re.digit c && all_digits s'
  end.

Fixpoint lstrip (s : string) : string :=
  match s with
  | String c s' => if Re.space c then lstrip s' else s
  | EmptyString => EmptyString
  end.

Fixpoint rstrip (s : string) : string :=
  match s with
  | EmptyString => EmptyString
  | String c s' =>
      match rstrip s' with
      | EmptyString => if Re.space c then EmptyString else String c EmptyString
      | r => String c r
      end
  end.

(** [int(s)] on the literals that reach it: surrounding whitespace is
    ignored and a run of decimal digits is read; anything else is a
    [ValueError]. *)
Definition int_of_str (s : string) : result Z :=
  let t := rstrip (lstrip s) in
  match t with
  | EmptyString => Raise ValueError
  | _ => if all_digits t then Return (digits_value 0 t) else Raise ValueError
  end.

(** [float(s)] on the same literals: the float nearest to the integer. *)
Definition float_of_str (s : string) : result spec_float :=
  let! n := int_of_str s in Return (Float.of_Z n).

(** [n + x] for an integer [n] and a float [x]: [n] is converted to a float
    first, which fails when it is too large. *)
Definition int_add_float (n : Z) (x : spec_float) : result spec_float :=
  match Float.of_Z n with
  | S754_infinity _ => Raise OverflowError
  | f => Return (Float.add f x)
  end.

(** ** Records

    A field of a record is text, a decimal number, or [None].  The decimals
    are the finite numbers, the infinity and the quiet NaN; a signalling
    NaN, on which [==] raises, is not among them. *)

Inductive value : Type :=
  | VStr (s : string)
  | VDec (d : Decimal.t)
  | VNone.

(** [val == d] for a field [val] that is not text and a decimal [d]. *)
Definition value_eq_decimal (val : value) (d : Decimal.t) : bool :=
  match val with
  | VDec d' => Decimal.eqb d' d
  | _ => false
  end.

(** [str.upper] *)
Definition upper_char (c : ascii) : ascii :=
  let n := nat_of_ascii c in
  if (97 <=? n)%nat && (n <=? 122)%nat then ascii_of_nat (n - 32) else c.

Fixpoint upper (s : string) : string :=
  match s with
  | EmptyString => EmptyString
  | String c s' => String (upper_char c) (upper s')
  end.

(** The keys [_matchUp] iterates over, in its order. *)
Definition field_keys : list string :=
  ["index"; "name"; "qty"; "range_end"; "unit"; "comment"].

(** ** The tag resolver *)

(** The loop of [_bestTag]: the first tag that is not a comment tag, and
    ["OTHER"] when the loop ends without returning. *)
Fixpoint bestTag_loop (tags : list string) : string :=
  match tags with
  | [] => "OTHER"
  | t :: tags' =>
      if negb (String.eqb t "B-COMMENT") && negb (String.eqb t "I-COMMENT")
      then t else bestTag_loop tags'
  end.

Definition _bestTag (tags : list string) : string :=
  if (length tags =? 1)%nat then nth 0 tags "" else bestTag_loop tags.

(** ** The BIO prefixer *)

(** ["%s-%s" % (p, t)] with [p] chosen from the previous token's tags. *)
Definition prefixed (prevTags : option (list string)) (t : string) : string :=
  let p :=
    match prevTags with
    | None => "B"
    | Some prev => if negb (existsb (String.eqb t) prev) then "B" else "I"
    end in
  p +:+ "-" +:+ t.

(** The outer loop of [_addPrefixes], with its two variables [prevTags] and
    [newData]. *)
Fixpoint addPrefixes_loop (prevTags : option (list string))
    (newData : list (string * list string))
    (data : list (string * list string)) : list (string * list string) :=
  match data with
  | [] => newData
  | (token, tags) :: data' =>
      let newTags :=
        fold_left (fun newTags t => newTags ++ [prefixed prevTags t]) tags [] in
      addPrefixes_loop (Some tags) (newData ++ [(token, newTags)]) data'
  end.

Definition _addPrefixes (data : list (string * list string))
  : list (string * list string) :=
  addPrefixes_loop None [] data.

(** *** Vocabulary of the properties of the resolver and the prefixer *)

Definition is_comment (t : string) : Prop := t = "B-COMMENT" \/ t = "I-COMMENT".

(** The labels of the first token. *)
Definition label_first (F : string) : string := "B-" +:+ F.

(** The label of field [F] after a token whose raw match set is [prev]. *)
Definition label_after (prev : list string) (F : string) : string :=
  (if decide (F ∈ prev) then "I" else "B") +:+ "-" +:+ F.

(** The prefixer as a left-to-right scan carrying the previous match set. *)
Fixpoint prefix_scan (prevTags : option (list string))
    (data : list (string * list string)) : list (string * list string) :=
  match data with
  | [] => []
  | (token, tags) :: data' =>
      (token, map (prefixed prevTags) tags) :: prefix_scan (Some tags) data'
  end.

(** ** The numeric parser, the matcher and the row translator *)

Section Translator.

(** The collaborators of module [utils], which is not part of the
    translator: they are taken as given, stateless functions on text. *)
Variable cleanUnicodeFractions : string -> string.
Variable tokenize : string -> list string.
Variable normalizeToken : string -> string.
Variable unclump : string -> string.
Variable getFeatures : string -> nat -> list string -> list string.
Variable joinLine : list string -> string.

(** [m.group(i)] is the element [i - 1] of the list of captured groups. *)
Definition _parseNumbers (s : string) : result (option Decimal.t) :=
  let ss := unclump s in
  match Re.rmatch re_integer ss with
  | Some _ =>
      let! f := float_of_str ss in
      Return (Some (Decimal.of_float (Float.round2 f)))
  | None =>
  match Re.rmatch re_mixed ss with
  | Some m1 =>
      let! i := int_of_str (nth 0 m1 "") in
      let! a := float_of_str (nth 1 m1 "") in
      let! b := float_of_str (nth 2 m1 "") in
      let! q := Float.div a b in
      let! num := int_add_float i q in
      Return (Some (Decimal.of_str_float (Float.round2 num)))
  | None =>
  match Re.rmatch re_fraction ss with
  | Some m2 =>
      let! a := float_of_str (nth 0 m2 "") in
      let! b := float_of_str (nth 1 m2 "") in
      let! num := Float.div a b in
      Return (Some (Decimal.of_str_float (Float.round2 num)))
  | None => Return None
  end end end.

(** The inner loop of [_matchUp] over the sub-tokens of a textual field. *)
Definition match_text (token key : string) (ret : list string) (val : string)
  : list string :=
  fold_left
    (fun ret vt =>
       if String.eqb (normalizeToken vt) token then ret ++ [upper key] else ret)
    (tokenize val) ret.

(** The loop of [_matchUp] over the keys; [ingredientRow[key]] raises
    [KeyError] for a key the record lacks. *)
Fixpoint match_keys (token : string) (decimalToken : option Decimal.t)
    (ingredientRow : gmap string value) (keys : list string)
    (ret : list string) : result (list string) :=
  match keys with
  | [] => Return ret
  | key :: keys' =>
      match ingredientRow !! key with
      | None => Raise (KeyError key)
      | Some (VStr s) =>
          match_keys token decimalToken ingredientRow keys'
            (match_text token key ret s)
      | Some val =>
          match decimalToken with
          | Some d =>
              match_keys token decimalToken ingredientRow keys'
                (if value_eq_decimal val d then ret ++ [upper key] else ret)
          | None => match_keys token decimalToken ingredientRow keys' ret
          end
      end
  end.

Definition _matchUp (token : string) (ingredientRow : gmap string value)
  : result (list string) :=
  let token := normalizeToken token in
  let! decimalToken := _parseNumbers token in
  match_keys token decimalToken ingredientRow field_keys [].

(** The output loop of [translate_row]; [i] is the index [enumerate]
    yields and [translated] the text built so far. *)
Fixpoint emit (tokens : list string) (i : nat)
    (rowData : list (string * list string)) (translated : string) : string :=
  match rowData with
  | [] => translated
  | (token, tags) :: rowData' =>
      let features := getFeatures token (i + 1) tokens in
      emit tokens (S i) rowData'
        (translated
           +:+ joinLine ([token] ++ features ++ [_bestTag tags])
           +:+ String Re.newline EmptyString)
  end.

(** The comprehension [[(t, _matchUp(t, row)) for t in tokens]]. *)
Definition match_all (row : gmap string value) (tokens : list string)
  : result (list (string * list string)) :=
  comprehension (fun t => let! tags := _matchUp t row in Return (t, tags))
    tokens.

(** [translate_row] returns its result together with the record as the call
    leaves it: the record is a dict shared with the caller and
    [del row['input']] changes it in place.  The utilities work on text; a
    display value that is not text is answered by [TypeError]. *)
Definition translate_row (row : gmap string value)
  : result string * gmap string value :=
  match row !! "input" with
  | None => (Raise (KeyError "input"), row)
  | Some (VStr input) =>
      let display_input := cleanUnicodeFractions input in
      let tokens := tokenize display_input in
      let row := delete "input" row in
      (let! pairs := match_all row tokens in
       let rowData := _addPrefixes pairs in
       Return (emit tokens 0 rowData ""),
       row)
  | Some _ => (Raise TypeError, row)
  end.

(** *** Vocabulary of the properties of the matcher and the translator *)

(** How often the loop body of [_matchUp] appends for one field: once per
    sub-token of a textual value that normalizes to [token]; for any other
    value once when it equals the parsed number, else never. *)
Definition occurrences (token : string) (d : option Decimal.t) (val : value)
  : nat :=
  match val with
  | VStr s =>
      length (filter (fun vt => String.eqb (normalizeToken vt) token = true)
                (tokenize s))
  | _ =>
      match d with
      | Some dec => if value_eq_decimal val dec then 1 else 0
      | None => 0
      end
  end.

Definition occurrences_in (row : gmap string value) (token : string)
    (d : option Decimal.t) (key : string) : nat :=
  match row !! key with
  | Some val => occurrences token d val
  | None => 0
  end.

(** One output line: the token, its feature columns, the final tag, and the
    newline that ends the line. *)
Definition line (tokens : list string) (i : nat) (token : string)
    (tags : list string) : string :=
  joinLine ([token] ++ getFeatures token (S i) tokens ++ [_bestTag tags])
  +:+ String Re.newline EmptyString.

End Translator.

(** ** A plain instance of the collaborators *)

Module Plain.

(** Modelled from the spec: [utils.cleanUnicodeFractions] is not part of the
    translator; it replaces Unicode fraction glyphs by ASCII text, which
    leaves text without such glyphs as it is. *)
Definition cleanUnicodeFractions (s : string) : string := s.

(** Modelled from the spec: [utils.tokenize] is not part of the translator;
    it splits text into tokens and preserves their order.  Here text is
    split at runs of whitespace. *)
Fixpoint split (cur : string) (s : string) : list string :=
  match s with
  | EmptyString => match cur with EmptyString => [] | _ => [cur] end
  | String c s' =>
      if Re.space c then
        match cur with
        | EmptyString => split EmptyString s'
        | _ => cur :: split EmptyString s'
        end
      else split (cur +:+ String c EmptyString) s'
  end.

Definition tokenize (s : string) : list string := split EmptyString s.

(** Modelled from the spec: [utils.normalizeToken] is not part of the
    translator; it strips decoration such as surrounding parentheses, which
    leaves a token without decoration as it is. *)
Definition normalizeToken (s : string) : string := s.

(** Modelled from the spec: [utils.unclump] is not part of the translator;
    it prepares a token for numeric parsing and leaves a token that has
    nothing joined as it is. *)
Definition unclump (s : string) : string := s.

(** Modelled from the spec: [utils.getFeatures] is not part of the
    translator; its columns are left to it.  Here there is none. *)
Definition getFeatures (token : string) (i : nat) (tokens : list string)
  : list string := [].

(** Modelled from the spec: [utils.joinLine] is not part of the translator;
    it joins the columns of a line with the tab delimiter. *)
Definition joinLine (columns : list string) : string :=
  String.concat (String (ascii_of_nat 9) EmptyString) columns.

Definition _parseNumbers := _parseNumbers unclump.
Definition _matchUp := _matchUp tokenize normalizeToken unclump.
Definition translate_row :=
  translate_row cleanUnicodeFractions tokenize normalizeToken unclump
    getFeatures joinLine.

End Plain.

(** ** Example records *)

Module Examples.

Definition two : Decimal.t := Decimal.Fin (200 # 100).

(** {input: "2 cups flour", qty: 2.00, unit: "cups", name: "flour"} *)
Definition flour_short : gmap string value :=
  <["input" := VStr "2 cups flour"]>
    (<["qty" := VDec two]>
       (<["unit" := VStr "cups"]> (<["name" := VStr "flour"]> ∅))).

(** The same record with the three remaining fields present and empty. *)
Definition flour : gmap string value :=
  <["index" := VNone]>
    (<["range_end" := VNone]> (<["comment" := VNone]> flour_short)).

(** A record whose name holds the same word twice. *)
Definition salt : gmap string value :=
  <["name" := VStr "salt and more salt"]> flour.


End Examples.

Definition tab : string := String (ascii_of_nat 9) EmptyString.
Definition nl : string := String Re.newline EmptyString.

(** The three lines of "2 cups flour" when there is no feature column. *)
Definition flour_lines : string :=
  "2" +:+ tab +:+ "B-QTY" +:+ nl
  +:+ "cups" +:+ tab +:+ "B-UNIT" +:+ nl
  +:+ "flour" +:+ tab +:+ "B-NAME" +:+ nl.

(** ** Vocabulary of the further properties *)

(** A label without its two-character BIO prefix. *)
Definition strip_prefix (label : string) : string :=
  match label with
  | String _ (String _ t) => t
  | _ => EmptyString
  end.

(** The labels a token can end up with. *)
Definition tag_alphabet : list string :=
  "OTHER"
  :: flat_map (fun key => ["B-" +:+ upper key; "I-" +:+ upper key]) field_keys.

(** The three shapes of text the numeric parser recognizes. *)
Definition is_integer_text (ss : string) : Prop :=
  exists ds,
    ds <> "" /\ Scan.all_of Re.digit ds = true /\
    (ss = ds \/ ss = ds +:+ String Re.newline "").

Definition has_mixed_prefix (ss : string) : Prop :=
  exists ds ws a b rest,
    ds <> "" /\ Scan.all_of Re.digit ds = true /\
    ws <> "" /\ Scan.all_of Re.space ws = true /\
    Re.digit a = true /\ Re.digit b = true /\
    ss = ds +:+ ws +:+ String a (String "/" (String b rest)).

Definition is_fraction_text (ss : string) : Prop :=
  exists a b,
    Re.digit a = true /\ Re.digit b = true /\
    (ss = String a (String "/" (String b ""))
     \/ ss = String a (String "/" (String b (String Re.newline "")))).

(** [n + a/b] rounded to a multiple of 1/100, halves upwards. *)
Definition round_hundredths (n a b : Z) : Q :=
  Qred (((200 * (n * b + a) + b) / (2 * b))%Z # 100).

(** The arithmetic of the parser on a mixed number with integer part [n],
    numerator [x] and denominator [y]. *)
Definition mixed_number (n x y : Z) : result (option Decimal.t) :=
  let! q := Float.div (Float.of_Z x) (Float.of_Z y) in
  let! num := int_add_float n q in
  Return (Some (Decimal.of_str_float (Float.round2 num))).

(** The arithmetic of the parser on a simple fraction. *)
Definition simple_fraction (x y : Z) : result (option Decimal.t) :=
  let! num := Float.div (Float.of_Z x) (Float.of_Z y) in
  Return (Some (Decimal.of_str_float (Float.round2 num))).

Definition Q_same (p q : Q) : bool :=
  Z.eqb (Qnum p) (Qnum q) && Pos.eqb (Qden p) (Qden q).

Definition returns_decimal (r : result (option Decimal.t)) (q : Q) : bool :=
  match r with
  | Return (Some (Decimal.Fin q')) => Q_same q' q
  | _ => false
  end.

Definition zrange (k : nat) : list Z := map Z.of_nat (seq 0 k).

(** The checks that are run over all small numbers. *)
Definition integer_ok (n : Z) : bool :=
  returns_decimal
    (Return (Some (Decimal.of_float (Float.round2 (Float.of_Z n))))) (n # 1).

Definition mixed_ok (n x y : Z) : bool :=
  returns_decimal (mixed_number n x y) (round_hundredths n x y).

Definition fraction_ok (x y : Z) : bool :=
  returns_decimal (simple_fraction x y) (round_hundredths 0 x y).

(** A field value matches a token: a textual value has a sub-token that
    normalizes to the (normalized) token; a decimal value equals the number
    the token was parsed as; [None] matches nothing. *)
Definition field_matches (tokenize : string -> list string)
    (normalizeToken : string -> string) (token : string)
    (d : option Decimal.t) (val : value) : Prop :=
  match val with
  | VStr s => exists vt, vt ∈ tokenize s /\ normalizeToken vt = token
  | VDec v => exists dec, d = Some dec /\ Decimal.eqb v dec = true
  | VNone => False
  end.

(** * Properties *)

(** ** The tag resolver *)

Lemma bestTag_loop_comments (tags : list string) :
  Forall is_comment tags -> bestTag_loop tags = "OTHER".
Proof.
  induction 1 as [|t ts [-> | ->] _ IH]; simpl; auto.
Qed.

Lemma bestTag_loop_first (pre : list string) (t : string) (post : list string) :
  Forall is_comment pre -> ~ is_comment t ->
  bestTag_loop (pre ++ t :: post) = t.
Proof.
  intros Hpre Ht.
  induction Hpre as [|c pre [-> | ->] _ IH]; simpl; auto.
  destruct (String.eqb_spec t "B-COMMENT") as [->|_];
    [exfalso; apply Ht; now left|].
  destruct (String.eqb_spec t "I-COMMENT") as [->|_];
    [exfalso; apply Ht; now right|].
  reflexivity.
Qed.

(** C1: the resolver returns the sole label of a one-element list, whatever
    it is; on any other list it returns the first label that is neither
    "B-COMMENT" nor "I-COMMENT", and "OTHER" when there is none (the list is
    empty or holds comment labels only). *)
Theorem bestTag_spec (tags : list string) :
  (forall t, tags = [t] -> _bestTag tags = t) /\
  (length tags <> 1%nat ->
   forall pre t post, tags = pre ++ t :: post ->
     Forall is_comment pre -> ~ is_comment t -> _bestTag tags = t) /\
  (length tags <> 1%nat -> Forall is_comment tags -> _bestTag tags = "OTHER").
Proof.
  unfold _bestTag. split; [|split].
  - intros t ->. reflexivity.
  - intros Hlen pre t post -> Hpre Ht.
    apply Nat.eqb_neq in Hlen. rewrite Hlen.
    now apply bestTag_loop_first.
  - intros Hlen Hall.
    apply Nat.eqb_neq in Hlen. rewrite Hlen.
    now apply bestTag_loop_comments.
Qed.

Lemma bestTag_spec_witness :
  _bestTag ["B-COMMENT"; "B-NAME"] = "B-NAME" /\
  _bestTag ["B-COMMENT"] = "B-COMMENT" /\
  _bestTag ["I-COMMENT"] = "I-COMMENT" /\
  _bestTag [] = "OTHER" /\
  _bestTag ["B-COMMENT"; "I-COMMENT"] = "OTHER".
Proof.
  assert (Hname : ~ is_comment "B-NAME") by (intros [H|H]; discriminate H).
  refine (conj _ (conj _ (conj _ (conj _ _)))).
  - apply (proj1 (proj2 (bestTag_spec ["B-COMMENT"; "B-NAME"]))
             ltac:(simpl; lia) ["B-COMMENT"] "B-NAME" [] eq_refl);
      [constructor; [now left | constructor] | exact Hname].
  - exact (proj1 (bestTag_spec ["B-COMMENT"]) "B-COMMENT" eq_refl).
  - exact (proj1 (bestTag_spec ["I-COMMENT"]) "I-COMMENT" eq_refl).
  - apply (proj2 (proj2 (bestTag_spec []))); [simpl; lia | constructor].
  - apply (proj2 (proj2 (bestTag_spec ["B-COMMENT"; "I-COMMENT"])));
      [simpl; lia |].
    constructor; [now left |].
    constructor; [now right | constructor].
Defined.

(** ** The BIO prefixer *)

Lemma fold_left_snoc {A B : Type} (f : A -> B) (l : list A) (acc : list B) :
  fold_left (fun acc a => acc ++ [f a]) l acc = acc ++ map f l.
Proof.
  revert acc. induction l as [|a l IH]; intros acc; simpl.
  - now rewrite app_nil_r.
  - rewrite IH, <- app_assoc. reflexivity.
Qed.

Lemma addPrefixes_loop_scan prevTags newData data :
  addPrefixes_loop prevTags newData data = newData ++ prefix_scan prevTags data.
Proof.
  revert prevTags newData.
  induction data as [|[token tags] data IH]; intros prevTags newData; simpl.
  - now rewrite app_nil_r.
  - rewrite IH, fold_left_snoc, <- app_assoc. reflexivity.
Qed.

Lemma addPrefixes_scan data : _addPrefixes data = prefix_scan None data.
Proof. unfold _addPrefixes. now rewrite addPrefixes_loop_scan. Qed.

Lemma existsb_elem_of (t : string) (prev : list string) :
  existsb (String.eqb t) prev = bool_decide (t ∈ prev).
Proof.
  induction prev as [|x prev IH]; cbn [existsb].
  - symmetry. apply bool_decide_eq_false_2. apply not_elem_of_nil.
  - rewrite IH. destruct (String.eqb_spec t x) as [->|Hne]; cbn [orb].
    + symmetry. apply bool_decide_eq_true_2. apply list_elem_of_here.
    + apply bool_decide_ext. rewrite elem_of_cons. tauto.
Qed.

Lemma prefixed_None F : prefixed None F = label_first F.
Proof. reflexivity. Qed.

Lemma prefixed_Some prev F : prefixed (Some prev) F = label_after prev F.
Proof.
  unfold prefixed, label_after. rewrite existsb_elem_of.
  destruct (decide (F ∈ prev)) as [Hin|Hnin].
  - now rewrite (bool_decide_eq_true_2 _ Hin).
  - now rewrite (bool_decide_eq_false_2 _ Hnin).
Qed.

Lemma prefix_scan_fst prevTags data :
  map fst (prefix_scan prevTags data) = map fst data.
Proof.
  revert prevTags.
  induction data as [|[token tags] data IH]; intros prevTags; simpl;
    [reflexivity | now rewrite IH].
Qed.

Lemma prefix_scan_head prevTags data token tags :
  data !! 0%nat = Some (token, tags) ->
  prefix_scan prevTags data !! 0%nat
  = Some (token, map (prefixed prevTags) tags).
Proof.
  destruct data as [|[t ts] data]; simpl; intros H; [discriminate|].
  now inversion H.
Qed.

Lemma prefix_scan_next prevTags data i ptoken prev token tags :
  data !! i = Some (ptoken, prev) ->
  data !! S i = Some (token, tags) ->
  prefix_scan prevTags data !! S i
  = Some (token, map (prefixed (Some prev)) tags).
Proof.
  revert prevTags i.
  induction data as [|[t ts] data IH]; intros prevTags i Hp Hc;
    [discriminate|].
  destruct i as [|i]; simpl in *.
  - inversion Hp; subst. now apply prefix_scan_head.
  - now apply IH.
Qed.

(** C2: the prefixer keeps the tokens and their order; every label of the
    first token gets "B"; a label of a later token gets "I" exactly when its
    field is in the raw match set of the token just before it, and "B"
    otherwise; an empty match set is carried like any other, so every label
    after it gets "B". *)
Theorem addPrefixes_spec (data : list (string * list string)) :
  map fst (_addPrefixes data) = map fst data /\
  (forall token tags,
     data !! 0%nat = Some (token, tags) ->
     _addPrefixes data !! 0%nat = Some (token, map label_first tags)) /\
  (forall i ptoken prev token tags,
     data !! i = Some (ptoken, prev) ->
     data !! S i = Some (token, tags) ->
     _addPrefixes data !! S i = Some (token, map (label_after prev) tags)) /\
  (forall i ptoken token tags,
     data !! i = Some (ptoken, []) ->
     data !! S i = Some (token, tags) ->
     _addPrefixes data !! S i = Some (token, map label_first tags)).
Proof.
  rewrite addPrefixes_scan. repeat apply conj.
  - apply prefix_scan_fst.
  - intros token tags H.
    rewrite (prefix_scan_head _ _ _ _ H).
    now rewrite (List.map_ext _ _ prefixed_None).
  - intros i ptoken prev token tags Hp Hc.
    rewrite (prefix_scan_next _ _ _ _ _ _ _ Hp Hc).
    now rewrite (List.map_ext _ _ (prefixed_Some prev)).
  - intros i ptoken token tags Hp Hc.
    rewrite (prefix_scan_next _ _ _ _ _ _ _ Hp Hc).
    now rewrite (List.map_ext _ _ (prefixed_Some [])).
Qed.

Lemma addPrefixes_spec_witness :
  let data := [("of", ["NAME"; "COMMENT"]); ("olive", ["NAME"]);
               ("and", []); ("oil", ["NAME"])] in
  map fst (_addPrefixes data) = ["of"; "olive"; "and"; "oil"] /\
  _addPrefixes data !! 0%nat = Some ("of", ["B-NAME"; "B-COMMENT"]) /\
  _addPrefixes data !! 1%nat = Some ("olive", ["I-NAME"]) /\
  _addPrefixes data !! 3%nat = Some ("oil", ["B-NAME"]).
Proof.
  intros data.
  destruct (addPrefixes_spec data) as (Hfst & Hfirst & Hnext & Hempty).
  repeat apply conj.
  - exact Hfst.
  - exact (Hfirst "of" ["NAME"; "COMMENT"] eq_refl).
  - exact (Hnext 0%nat "of" ["NAME"; "COMMENT"] "olive" ["NAME"]
             eq_refl eq_refl).
  - exact (Hempty 2%nat "and" "oil" ["NAME"] eq_refl eq_refl).
Defined.

(** ** Regular expressions: greedy runs never need to backtrack here *)

Module ReFacts.

Import Re Scan.

Lemma append_assoc (a b c : string) : (a +:+ b) +:+ c = a +:+ (b +:+ c).
Proof.
  induction a as [|x a IH]; [reflexivity|].
  change (String x ((a +:+ b) +:+ c) = String x (a +:+ (b +:+ c))).
  now f_equal.
Qed.

Lemma append_nil_r (a : string) : a +:+ "" = a.
Proof.
  induction a as [|x a IH]; [reflexivity|].
  change (String x (a +:+ "") = String x a). now f_equal.
Qed.

Lemma span_nil p s r : span p s = (EmptyString, r) -> r = s.
Proof.
  destruct s as [|c s]; simpl.
  - now intros [= <-].
  - destruct (p c); [destruct (span p s); discriminate | now intros [= <-]].
Qed.

Lemma span_cons_head p s x g r :
  span p s = (String x g, r) -> exists s', s = String x s' /\ p x = true.
Proof.
  destruct s as [|c s]; simpl; [discriminate|].
  destruct (p c) eqn:Hc; [|discriminate].
  destruct (span p s). intros [= <- _ _]. eauto.
Qed.

Lemma plus_run_span {A : Type} p (k : string -> string -> option A) taken s :
  blocks p k ->
  plus_run p k taken s
  = match span p s with
    | (EmptyString, _) => None
    | (g, r) => k (taken +:+ g) r
    end.
Proof.
  intros Hk. revert taken.
  induction s as [|c s IH]; intros taken; simpl; [reflexivity|].
  destruct (p c) eqn:Hc; [|reflexivity].
  rewrite IH. destruct (span p s) as [g r] eqn:Hspan.
  destruct g as [|x g].
  - now rewrite (span_nil _ _ _ Hspan).
  - rewrite append_assoc.
    change (String c "" +:+ String x g) with (String c (String x g)).
    destruct (k (taken +:+ String c (String x g)) r) eqn:Hlong;
      [reflexivity|].
    destruct (span_cons_head _ _ _ _ _ Hspan) as (s' & -> & Hx).
    now apply Hk.
Qed.

Lemma digit_not_space c : digit c = true -> space c = false.
Proof.
  unfold digit, space. intros H.
  apply andb_true_iff in H as [H1 H2].
  apply Nat.leb_le in H1, H2.
  apply orb_false_iff. split.
  - apply andb_false_iff. right. apply Nat.leb_gt. lia.
  - apply Nat.eqb_neq. lia.
Qed.

Lemma space_not_digit c : space c = true -> digit c = false.
Proof.
  intros Hs. destruct (digit c) eqn:Hd; [|reflexivity].
  apply digit_not_space in Hd. congruence.
Qed.

Lemma digit_not_newline c : digit c = true -> Ascii.eqb c newline = false.
Proof.
  intros Hd. apply Ascii.eqb_neq. intros ->. discriminate Hd.
Qed.

(** *** The three patterns as scanners *)

Ltac case_ifs :=
  repeat match goal with
         | |- context [if ?b then _ else _] => destruct b; simpl
         end;
  try reflexivity.

Lemma rmatch_integer ss : rmatch re_integer ss = scan_integer ss.
Proof.
  unfold rmatch, re_integer, scan_integer. cbn [run].
  rewrite plus_run_span.
  - destruct (span digit ss) as [[|d ds] r]; [reflexivity|].
    now destruct (at_eol r).
  - intros g c s Hc. simpl.
    destruct s; [now rewrite (digit_not_newline _ Hc) | reflexivity].
Qed.

Lemma rmatch_mixed ss : rmatch re_mixed ss = scan_mixed ss.
Proof.
  unfold rmatch, re_mixed, scan_mixed. cbn [run].
  rewrite plus_run_span.
  - destruct (span digit ss) as [[|d ds] r1]; [reflexivity|].
    rewrite plus_run_span.
    + destruct (span space r1) as [[|w ws] r2]; [reflexivity|].
      destruct r2 as [|a [|c [|b r]]]; simpl; case_ifs.
    + intros g c s Hc. simpl. now rewrite (space_not_digit _ Hc).
  - intros g c s Hc. simpl. now rewrite (digit_not_space _ Hc).
Qed.

Lemma rmatch_fraction ss : rmatch re_fraction ss = scan_fraction ss.
Proof.
  unfold rmatch, re_fraction, scan_fraction. cbn [run].
  destruct ss as [|a [|c [|b r]]]; simpl; case_ifs.
Qed.

End ReFacts.

(** ** The numeric parser *)

Module SpanFacts.

Import Re Scan ReFacts.

Lemma span_run p g r :
  all_of p g = true -> stops p r -> span p (g +:+ r) = (g, r).
Proof.
  intros Hg Hr. induction g as [|c g IH].
  - destruct r as [|x r]; [reflexivity|]. simpl in *. now rewrite Hr.
  - simpl in Hg. apply andb_true_iff in Hg as [Hc Hg].
    change (String c g +:+ r) with (String c (g +:+ r)).
    simpl. now rewrite Hc, (IH Hg).
Qed.

End SpanFacts.

(** *** The conversions never see a malformed literal *)

Module LiteralFacts.

Import Re Scan ReFacts SpanFacts.

Lemma span_split p s g r :
  span p s = (g, r) -> s = g +:+ r /\ all_of p g = true.
Proof.
  revert g r. induction s as [|c s IH]; intros g r; simpl.
  - intros [= <- <-]. now split.
  - destruct (p c) eqn:Hc.
    + destruct (span p s) as [g' r'] eqn:Hs. intros [= <- <-].
      destruct (IH g' r' eq_refl) as [-> Hg]. simpl. now rewrite Hc.
    + intros [= <- <-]. now split.
Qed.

Lemma all_digits_all_of s : all_digits s = all_of digit s.
Proof. induction s as [|c s IH]; simpl; [reflexivity | now rewrite IH]. Qed.

Lemma rstrip_digits c s :
  all_of digit (String c s) = true -> rstrip (String c s) = String c s.
Proof.
  revert c. induction s as [|x s IH]; intros c H; simpl in H;
    apply andb_true_iff in H as [Hc Hs].
  - simpl. now rewrite (digit_not_space _ Hc).
  - change (rstrip (String c (String x s)))
      with (match rstrip (String x s) with
            | EmptyString =>
                if space c then EmptyString else String c EmptyString
            | r => String c r
            end).
    now rewrite (IH x Hs).
Qed.

Lemma rstrip_digits_newline c s :
  all_of digit (String c s) = true ->
  rstrip (String c s +:+ String newline "") = String c s.
Proof.
  revert c. induction s as [|x s IH]; intros c H; simpl in H;
    apply andb_true_iff in H as [Hc Hs].
  - simpl. now rewrite (digit_not_space _ Hc).
  - change (rstrip (String c (String x s) +:+ String newline ""))
      with (match rstrip (String x s +:+ String newline "") with
            | EmptyString =>
                if space c then EmptyString else String c EmptyString
            | r => String c r
            end).
    now rewrite (IH x Hs).
Qed.

Lemma lstrip_digits c s : digit c = true -> lstrip (String c s) = String c s.
Proof. intros Hc. simpl. now rewrite (digit_not_space _ Hc). Qed.

(** [int] and [float] accept a digit run, with or without a last newline. *)
Lemma int_of_str_digits c s r :
  all_of digit (String c s) = true -> at_eol r = true ->
  int_of_str (String c s +:+ r) = Return (digits_value 0 (String c s)).
Proof.
  intros H Hr. unfold int_of_str.
  assert (Hc : digit c = true) by (simpl in H; now apply andb_true_iff in H).
  assert (Hstrip : rstrip (lstrip (String c s +:+ r)) = String c s).
  { change (String c s +:+ r) with (String c (s +:+ r)).
    rewrite (lstrip_digits _ _ Hc).
    change (String c (s +:+ r)) with (String c s +:+ r).
    destruct r as [|x [|y r]]; try discriminate Hr.
    - rewrite append_nil_r. now apply rstrip_digits.
    - simpl in Hr. apply Ascii.eqb_eq in Hr. subst x.
      now apply rstrip_digits_newline. }
  rewrite Hstrip, all_digits_all_of, H. reflexivity.
Qed.

Lemma float_of_str_digit a :
  digit a = true ->
  float_of_str (String a "") = Return (Float.of_Z (digit_value a)).
Proof.
  intros Ha. unfold float_of_str.
  rewrite <- (append_nil_r (String a "")).
  rewrite (int_of_str_digits a "" ""); [reflexivity | | reflexivity].
  simpl. now rewrite Ha.
Qed.

Lemma scan_integer_literal ss g :
  scan_integer ss = Some g ->
  exists n, float_of_str ss = Return (Float.of_Z n).
Proof.
  unfold scan_integer.
  destruct (span digit ss) as [[|d ds] r] eqn:Hspan; [discriminate|].
  destruct (at_eol r) eqn:Hr; [|discriminate]. intros _.
  destruct (span_split _ _ _ _ Hspan) as [-> Hd].
  unfold float_of_str. rewrite (int_of_str_digits _ _ _ Hd Hr). eauto.
Qed.

Lemma scan_mixed_groups ss m1 :
  scan_mixed ss = Some m1 ->
  exists d ds a b,
    m1 = [String d ds; String a ""; String b ""] /\
    all_of digit (String d ds) = true /\ digit a = true /\ digit b = true.
Proof.
  unfold scan_mixed.
  destruct (span digit ss) as [[|d ds] r1] eqn:Hspan; [discriminate|].
  destruct (span_split _ _ _ _ Hspan) as [_ Hd].
  destruct (span space r1) as [[|w ws] [|a [|c [|b r]]]]; try discriminate.
  destruct (digit a) eqn:Ha; [|discriminate].
  destruct (Ascii.eqb "/" c); [|discriminate].
  destruct (digit b) eqn:Hb; [|discriminate].
  intros [= <-]. exists d, ds, a, b. auto.
Qed.

Lemma scan_fraction_groups ss m2 :
  scan_fraction ss = Some m2 ->
  exists a b,
    m2 = [String a ""; String b ""] /\ digit a = true /\ digit b = true.
Proof.
  unfold scan_fraction.
  destruct ss as [|a [|c [|b r]]]; try discriminate.
  destruct (digit a) eqn:Ha; [|discriminate].
  destruct (Ascii.eqb "/" c); [|discriminate].
  destruct (digit b) eqn:Hb; [|discriminate].
  destruct (at_eol r); [|discriminate].
  intros [= <-]. exists a, b. auto.
Qed.

End LiteralFacts.

Section ParserFacts.

Import Re Scan ReFacts SpanFacts LiteralFacts.

Variable unclump : string -> string.

Lemma mixed_prefix_scans ds ws a b rest :
  ds <> "" -> all_of digit ds = true ->
  ws <> "" -> all_of space ws = true ->
  digit a = true -> digit b = true ->
  let ss := ds +:+ ws +:+ String a (String "/" (String b rest)) in
  rmatch re_integer ss = None /\
  rmatch re_mixed ss = Some [ds; String a ""; String b ""].
Proof.
  intros Hds Hd Hws Hw Ha Hb ss. subst ss.
  destruct ds as [|d ds]; [congruence|].
  destruct ws as [|w ws]; [congruence|].
  assert (Hstop1 : stops digit
            (String w ws +:+ String a (String "/" (String b rest)))).
  { simpl in Hw. apply andb_true_iff in Hw as [Hw _].
    exact (space_not_digit _ Hw). }
  assert (Hstop2 : stops space (String a (String "/" (String b rest)))).
  { exact (digit_not_space _ Ha). }
  split.
  - rewrite rmatch_integer. unfold scan_integer.
    rewrite (span_run _ _ _ Hd Hstop1).
    change (String w ws +:+ String a (String "/" (String b rest)))
      with (String w (ws +:+ String a (String "/" (String b rest)))).
    destruct ws; reflexivity.
  - rewrite rmatch_mixed. unfold scan_mixed.
    rewrite (span_run _ _ _ Hd Hstop1), (span_run _ _ _ Hw Hstop2).
    now rewrite Ha, Hb.
Qed.

(** The parser raises for a zero denominator or an integer part beyond the
    floats, and for nothing else: the conversions [int] and [float] are only
    given digits. *)
Lemma parseNumbers_raises (s : string) (e : exn) :
  _parseNumbers unclump s = Raise e ->
  e = ZeroDivisionError \/ e = OverflowError.
Proof.
  assert (Hdiv : forall x y q,
            Float.div x y = Raise q -> q = ZeroDivisionError).
  { intros x y q. unfold Float.div. destruct y; congruence. }
  assert (Hadd : forall i x q,
            int_add_float i x = Raise q -> q = OverflowError).
  { intros i x q. unfold int_add_float. destruct (Float.of_Z i); congruence. }
  unfold _parseNumbers. cbv zeta.
  rewrite rmatch_integer, rmatch_mixed, rmatch_fraction.
  destruct (scan_integer (unclump s)) as [g|] eqn:H3.
  { destruct (scan_integer_literal _ _ H3) as [n ->]. discriminate. }
  destruct (scan_mixed (unclump s)) as [m1|] eqn:H1.
  { destruct (scan_mixed_groups _ _ H1) as (d & ds & a & b & -> & Hd & Ha & Hb).
    cbn [nth].
    rewrite <- (append_nil_r (String d ds)).
    rewrite (int_of_str_digits _ _ "" Hd eq_refl).
    rewrite (float_of_str_digit _ Ha), (float_of_str_digit _ Hb).
    cbn [Py.bind].
    destruct (Float.div _ _) as [q|q] eqn:Hq; cbn [Py.bind].
    - destruct (int_add_float _ q) as [num|o] eqn:Hn; cbn [Py.bind];
        [discriminate|].
      intros [= <-]. right. eapply Hadd, Hn.
    - intros [= <-]. left. eapply Hdiv, Hq. }
  destruct (scan_fraction (unclump s)) as [m2|] eqn:H2; [|discriminate].
  destruct (scan_fraction_groups _ _ H2) as (a & b & -> & Ha & Hb).
  cbn [nth].
  rewrite (float_of_str_digit _ Ha), (float_of_str_digit _ Hb).
  cbn [Py.bind].
  destruct (Float.div _ _) as [q|q] eqn:Hq; cbn [Py.bind]; [discriminate|].
  intros [= <-]. left. eapply Hdiv, Hq.
Qed.

(** C10: the mixed-number pattern is anchored at the start only.  Text that
    begins with [<digits> <blanks> <digit>/<digit>] and goes on with any
    other characters is parsed as that beginning alone is: the parser gives
    the value of the prefix, never "no match". *)
Theorem parseNumbers_mixed_prefix (s ds ws : string) (a b : ascii)
    (rest : string) :
  ds <> "" -> all_of digit ds = true ->
  ws <> "" -> all_of space ws = true ->
  digit a = true -> digit b = true ->
  unclump s = ds +:+ ws +:+ String a (String "/" (String b rest)) ->
  _parseNumbers unclump s
  = _parseNumbers (fun x => x)
      (ds +:+ ws +:+ String a (String "/" (String b ""))) /\
  _parseNumbers unclump s <> Return None.
Proof.
  intros Hds Hd Hws Hw Ha Hb Hs.
  destruct (mixed_prefix_scans ds ws a b rest Hds Hd Hws Hw Ha Hb) as [H3 H1].
  destruct (mixed_prefix_scans ds ws a b "" Hds Hd Hws Hw Ha Hb) as [H3' H1'].
  cbv zeta in H3, H1, H3', H1'.
  unfold _parseNumbers. rewrite Hs. cbv zeta.
  rewrite H3, H1, H3', H1'. split; [reflexivity|].
  cbn [nth].
  destruct (int_of_str ds) as [i|]; [|discriminate].
  destruct (float_of_str (String a "")) as [x|]; [|discriminate].
  destruct (float_of_str (String b "")) as [y|]; [|discriminate].
  cbn [Py.bind].
  destruct (Float.div x y) as [q|]; [|discriminate].
  cbn [Py.bind].
  destruct (int_add_float i q) as [num|]; discriminate.
Qed.

(** C3 at the inputs where it fails: text with something after a mixed
    number is not of any of the three forms, and the parser answers 1.50. *)
Theorem parseNumbers_trailing_text (s : string) :
  unclump s = "1 1/2x" \/ unclump s = "1 1/23" ->
  _parseNumbers unclump s = Return (Some (Decimal.Fin (3 # 2))).
Proof.
  intros [H|H]; unfold _parseNumbers; rewrite H; vm_compute; reflexivity.
Qed.

End ParserFacts.

Lemma parseNumbers_mixed_prefix_witness :
  Plain._parseNumbers "1 1/2x" = Return (Some (Decimal.Fin (3 # 2))) /\
  Plain._parseNumbers "1 1/23" = Return (Some (Decimal.Fin (3 # 2))) /\
  Plain._parseNumbers "1 1/2x" <> Return None.
Proof.
  pose proof (parseNumbers_mixed_prefix Plain.unclump "1 1/2x" "1" " "
                "1" "2" "x") as Hx.
  pose proof (parseNumbers_mixed_prefix Plain.unclump "1 1/23" "1" " "
                "1" "2" "3") as H3.
  repeat apply conj.
  - refine (eq_trans (proj1 (Hx _ _ _ _ _ _ _)) _);
      try reflexivity; discriminate.
  - refine (eq_trans (proj1 (H3 _ _ _ _ _ _ _)) _);
      try reflexivity; discriminate.
  - refine (proj2 (Hx _ _ _ _ _ _ _)); try reflexivity; discriminate.
Defined.

Lemma parseNumbers_trailing_text_witness :
  Plain._parseNumbers "1 1/2x" = Return (Some (Decimal.Fin (3 # 2))).
Proof.
  apply (parseNumbers_trailing_text Plain.unclump "1 1/2x").
  left. reflexivity.
Defined.

(** The documented examples of the parser, and a zero denominator. *)
Example parseNumbers_examples :
  Plain._parseNumbers "2" = Return (Some (Decimal.Fin 2)) /\
  Plain._parseNumbers "1 1/2" = Return (Some (Decimal.Fin (3 # 2))) /\
  Plain._parseNumbers "1/3" = Return (Some (Decimal.Fin (33 # 100))) /\
  Plain._parseNumbers "abc" = Return None /\
  Plain._parseNumbers "10/20" = Return None /\
  Plain._parseNumbers "1/0" = Raise ZeroDivisionError.
Proof. repeat apply conj; vm_compute; reflexivity. Qed.

(** ** The token-to-field matcher *)

Section MatcherFacts.

Variable tokenize : string -> list string.
Variable normalizeToken : string -> string.
Variable unclump : string -> string.

Local Abbreviation _matchUp := (_matchUp tokenize normalizeToken unclump).
Local Abbreviation match_keys := (match_keys tokenize normalizeToken).
Local Abbreviation match_text := (match_text tokenize normalizeToken).
Local Abbreviation occurrences := (occurrences tokenize normalizeToken).
Local Abbreviation occurrences_in :=
  (occurrences_in tokenize normalizeToken).

Lemma match_text_repeat token key ret s :
  match_text token key ret s
  = ret ++ repeat (upper key) (occurrences token None (VStr s)).
Proof.
  unfold match_text, occurrences. revert ret.
  induction (tokenize s) as [|vt vts IH]; intros ret; simpl.
  - now rewrite app_nil_r.
  - rewrite IH. rewrite filter_cons.
    destruct (decide (String.eqb (normalizeToken vt) token = true)) as [E|E].
    + rewrite E, <- app_assoc. reflexivity.
    + apply not_true_is_false in E. now rewrite E.
Qed.

Lemma match_keys_repeat token d row keys ret out :
  match_keys token d row keys ret = Return out ->
  out = ret ++ flat_map
                 (fun key => repeat (upper key) (occurrences_in row token d key))
                 keys.
Proof.
  revert ret. induction keys as [|key keys IH]; intros ret; simpl.
  - intros [= <-]. now rewrite app_nil_r.
  - unfold occurrences_in at 1.
    destruct (row !! key) as [[s|dec|]|] eqn:Hkey; [| | |discriminate].
    + intros H. apply IH in H. rewrite H, match_text_repeat, <- app_assoc.
      reflexivity.
    + destruct d as [d|]; intros H; apply IH in H; rewrite H; simpl.
      * destruct (Decimal.eqb dec d); simpl; [|reflexivity].
        now rewrite <- app_assoc.
      * reflexivity.
    + destruct d as [d|]; intros H; apply IH in H; rewrite H; reflexivity.
Qed.

(** Every key is looked up: the loop returns exactly when the record has
    all of them, and raises [KeyError] for the first one it lacks. *)
Lemma match_keys_returns token d row keys ret :
  (forall key, key ∈ keys -> is_Some (row !! key)) ->
  exists out, match_keys token d row keys ret = Return out.
Proof.
  revert ret. induction keys as [|key keys IH]; intros ret Hall; simpl.
  - eauto.
  - destruct (Hall key) as [val Hval]; [apply list_elem_of_here|].
    rewrite Hval.
    assert (Hrest : forall k, k ∈ keys -> is_Some (row !! k))
      by (intros k Hk; apply Hall; now apply list_elem_of_further).
    destruct val as [s|dec|]; [apply IH, Hrest | |];
      destruct d; apply IH, Hrest.
Qed.


Lemma repeat_NoDup (u : string) (n : nat) : NoDup (repeat u n) <-> n <= 1.
Proof.
  destruct n as [|[|n]]; simpl.
  - split; [lia | constructor].
  - split; [lia | intros _; apply NoDup_singleton].
  - split; [|lia]. intros H. apply NoDup_cons in H as [H _].
    exfalso. apply H. apply list_elem_of_here.
Qed.

Lemma flat_map_repeat_elem (keys : list string) (n : string -> nat) x :
  x ∈ flat_map (fun key => repeat (upper key) (n key)) keys ->
  x ∈ map upper keys.
Proof.
  induction keys as [|k keys IH]; simpl; [auto|].
  rewrite elem_of_app. intros [H|H].
  - apply list_elem_of_In, repeat_spec in H. subst. apply list_elem_of_here.
  - apply list_elem_of_further. auto.
Qed.

Lemma flat_map_repeat_NoDup (keys : list string) (n : string -> nat) :
  NoDup (map upper keys) ->
  NoDup (flat_map (fun key => repeat (upper key) (n key)) keys)
  <-> forall key, key ∈ keys -> n key <= 1.
Proof.
  induction keys as [|k keys IH]; simpl; intros Hnd.
  - split; [intros _ key Hk; now apply elem_of_nil in Hk | constructor].
  - apply NoDup_cons in Hnd as [Hk Hnd]. specialize (IH Hnd).
    rewrite NoDup_app, repeat_NoDup, IH. split.
    + intros (H1 & _ & H2) key [->|Hin]%elem_of_cons; auto.
    + intros H. repeat split.
      * apply H, list_elem_of_here.
      * intros x Hx Hx'. apply flat_map_repeat_elem in Hx'.
        apply list_elem_of_In, repeat_spec in Hx. subst. contradiction.
      * intros key Hin. apply H. now apply list_elem_of_further.
Qed.

(** C4, amended: the matcher returns a list, not a set.  A field name is
    appended once for every sub-token of the field's text that matches the
    token, and at most once for a field that is not text; names come in the
    fixed field order.  Hence no name is repeated exactly when no field
    counts more than one matching sub-token. *)
Theorem matchUp_multiplicity (token : string) (row : gmap string value)
    (ret : list string) :
  _matchUp token row = Return ret ->
  exists d,
    _parseNumbers unclump (normalizeToken token) = Return d /\
    ret = flat_map
            (fun key =>
               repeat (upper key)
                 (occurrences_in row (normalizeToken token) d key))
            field_keys /\
    (NoDup ret <->
     forall key, key ∈ field_keys ->
       occurrences_in row (normalizeToken token) d key <= 1).
Proof.
  unfold _matchUp. intros H.
  destruct (_parseNumbers unclump (normalizeToken token)) as [d|] eqn:Hd;
    [|discriminate].
  cbn [Py.bind] in H. apply match_keys_repeat in H. rewrite app_nil_l in H.
  exists d. split; [reflexivity|]. split; [exact H|].
  rewrite H. apply flat_map_repeat_NoDup.
  vm_compute. repeat (constructor; [intros Hin; repeat
    (apply elem_of_cons in Hin as [Hin|Hin]; [discriminate|]);
    now apply elem_of_nil in Hin|]). constructor.
Qed.

End MatcherFacts.

Lemma matchUp_multiplicity_witness :
  Plain._matchUp "salt" Examples.salt = Return ["NAME"; "NAME"] /\
  exists d,
    Plain._parseNumbers "salt" = Return d /\
    ["NAME"; "NAME"]
    = flat_map
        (fun key =>
           repeat (upper key)
             (occurrences_in Plain.tokenize Plain.normalizeToken
                Examples.salt "salt" d key))
        field_keys /\
    (NoDup ["NAME"; "NAME"] <->
     forall key, key ∈ field_keys ->
       occurrences_in Plain.tokenize Plain.normalizeToken
         Examples.salt "salt" d key <= 1).
Proof.
  assert (H : Plain._matchUp "salt" Examples.salt = Return ["NAME"; "NAME"])
    by (vm_compute; reflexivity).
  split; [exact H|].
  exact (matchUp_multiplicity Plain.tokenize Plain.normalizeToken
           Plain.unclump "salt" Examples.salt ["NAME"; "NAME"] H).
Defined.

(** C4 as stated fails: a name that holds the token twice is listed twice. *)
Lemma matchUp_repeats_field :
  exists ret,
    Plain._matchUp "salt" Examples.salt = Return ret /\ ~ NoDup ret.
Proof.
  exists ["NAME"; "NAME"]. split; [vm_compute; reflexivity|].
  intros H. apply NoDup_cons in H as [H _]. apply H, list_elem_of_here.
Qed.

(** ** The row translator *)

Lemma flour_lookups :
  Examples.flour !! "input" = Some (VStr "2 cups flour") /\
  delete "input" Examples.flour !! "index" = Some VNone /\
  delete "input" Examples.flour !! "name" = Some (VStr "flour") /\
  delete "input" Examples.flour !! "qty" = Some (VDec Examples.two) /\
  delete "input" Examples.flour !! "range_end" = Some VNone /\
  delete "input" Examples.flour !! "unit" = Some (VStr "cups") /\
  delete "input" Examples.flour !! "comment" = Some VNone.
Proof. repeat apply conj; vm_compute; reflexivity. Qed.

Section TranslatorFacts.

Variable cleanUnicodeFractions : string -> string.
Variable tokenize : string -> list string.
Variable normalizeToken : string -> string.
Variable unclump : string -> string.
Variable getFeatures : string -> nat -> list string -> list string.
Variable joinLine : list string -> string.

Local Abbreviation _parseNumbers := (_parseNumbers unclump).
Local Abbreviation _matchUp := (_matchUp tokenize normalizeToken unclump).
Local Abbreviation emit := (emit getFeatures joinLine).
Local Abbreviation match_all := (match_all tokenize normalizeToken unclump).
Local Abbreviation line := (line getFeatures joinLine).
Local Abbreviation occurrences_in :=
  (occurrences_in tokenize normalizeToken).
Local Abbreviation translate_row :=
  (translate_row cleanUnicodeFractions tokenize normalizeToken unclump
     getFeatures joinLine).

Lemma translate_row_no_input row :
  row !! "input" = None -> translate_row row = (Raise (KeyError "input"), row).
Proof. intros H. unfold translate_row. now rewrite H. Qed.

Lemma translate_row_text row input :
  row !! "input" = Some (VStr input) ->
  translate_row row
  = (let tokens := tokenize (cleanUnicodeFractions input) in
     let! pairs := match_all (delete "input" row) tokens in
     Return (emit tokens 0 (_addPrefixes pairs) ""),
     delete "input" row).
Proof. intros H. unfold translate_row. now rewrite H. Qed.

Lemma match_all_fst row tokens pairs :
  match_all row tokens = Return pairs -> map fst pairs = tokens.
Proof.
  unfold match_all. revert pairs.
  induction tokens as [|t tokens IH]; intros pairs; simpl.
  - now intros [= <-].
  - destruct (_matchUp t row) as [tags|]; [|discriminate]. cbn [Py.bind].
    destruct (comprehension _ tokens) as [ps|]; [|discriminate].
    cbn [Py.bind]. intros [= <-]. simpl. now rewrite (IH ps).
Qed.

Lemma concat_empty_cons (x : string) (xs : list string) :
  String.concat "" (x :: xs) = x +:+ String.concat "" xs.
Proof.
  destruct xs as [|y xs]; simpl; [now rewrite ReFacts.append_nil_r|].
  reflexivity.
Qed.

Lemma emit_lines tokens i rowData translated :
  emit tokens i rowData translated
  = translated
    +:+ String.concat ""
          (imap (fun j p => line tokens (i + j) (fst p) (snd p)) rowData).
Proof.
  revert i translated.
  induction rowData as [|[token tags] rowData IH]; intros i translated.
  - simpl. now rewrite ReFacts.append_nil_r.
  - cbn [emit]. rewrite IH, imap_cons, concat_empty_cons.
    replace (imap ((fun j p => line tokens (i + j) (fst p) (snd p)) ∘ S)
               rowData)
      with (imap (fun j p => line tokens (S i + j) (fst p) (snd p)) rowData)
      by (apply imap_ext; intros j p _; simpl; now rewrite Nat.add_succ_r).
    unfold line at 2. cbn [fst snd].
    now rewrite Nat.add_0_r, Nat.add_1_r, !ReFacts.append_assoc.
Qed.

(** C9: the call deletes the key 'input' from the record it is given and
    changes nothing else, whether it returns or raises while matching. *)
Theorem translate_row_deletes_input (row : gmap string value) :
  (row !! "input" = None \/ exists input, row !! "input" = Some (VStr input)) ->
  snd (translate_row row) = delete "input" row /\
  snd (translate_row row) !! "input" = None /\
  (forall key, key <> "input" ->
     snd (translate_row row) !! key = row !! key).
Proof.
  intros Hin.
  assert (H : snd (translate_row row) = delete "input" row).
  { destruct Hin as [Hin|[input Hin]].
    - rewrite (translate_row_no_input _ Hin). cbn [snd]. symmetry.
      now apply delete_id.
    - now rewrite (translate_row_text _ _ Hin). }
  rewrite H. repeat split.
  - apply lookup_delete_eq.
  - intros key Hkey. now apply lookup_delete_ne.
Qed.

(** C6, amended: the translator keeps no state of its own, but it does
    change the record.  After a call that returned, a second call on the
    same record raises [KeyError] for 'input'; once the display string is
    put back, the call returns the same output as the first. *)
Theorem translate_row_twice (row : gmap string value) (out : string)
    (row' : gmap string value) :
  translate_row row = (Return out, row') ->
  translate_row row' = (Raise (KeyError "input"), row') /\
  exists input,
    row !! "input" = Some (VStr input) /\
    translate_row (<["input" := VStr input]> row') = (Return out, row').
Proof.
  intros H.
  destruct (row !! "input") as [[input| |]|] eqn:Hin.
  - rewrite (translate_row_text _ _ Hin) in H.
    assert (Hrow' : row' = delete "input" row) by now inversion H.
    split.
    + apply translate_row_no_input. rewrite Hrow'. apply lookup_delete_eq.
    + exists input. split; [reflexivity|].
      rewrite Hrow', insert_delete_id by exact Hin.
      rewrite (translate_row_text _ _ Hin). rewrite Hrow' in H. exact H.
  - unfold translate_row in H. rewrite Hin in H. discriminate.
  - unfold translate_row in H. rewrite Hin in H. discriminate.
  - rewrite (translate_row_no_input _ Hin) in H. discriminate.
Qed.

Lemma prefix_scan_lookup prevTags data i token tags :
  data !! i = Some (token, tags) ->
  exists prev, prefix_scan prevTags data !! i
               = Some (token, map (prefixed prev) tags).
Proof.
  revert prevTags i.
  induction data as [|[t ts] data IH]; intros prevTags i H; [discriminate|].
  destruct i as [|i]; simpl in *.
  - inversion H; subst. eauto.
  - eauto.
Qed.

Lemma flat_map_repeat_none (keys : list string) (n : string -> nat) :
  (forall key, key ∈ keys -> n key = 0) ->
  flat_map (fun key => repeat (upper key) (n key)) keys = [].
Proof.
  induction keys as [|k keys IH]; intros H; simpl; [reflexivity|].
  rewrite (H k) by apply list_elem_of_here. simpl.
  apply IH. intros key Hk. apply H. now apply list_elem_of_further.
Qed.

Lemma input_not_field : "input" ∉ field_keys.
Proof.
  intros H. unfold field_keys in H.
  repeat (apply elem_of_cons in H as [H|H]; [discriminate|]).
  now apply elem_of_nil in H.
Qed.

(** On a record that has every field the matcher returns, and its result is
    determined by how often each field matches. *)
Lemma matchUp_complete row t d :
  (forall key, key ∈ field_keys -> is_Some (row !! key)) ->
  _parseNumbers (normalizeToken t) = Return d ->
  _matchUp t row
  = Return
      (flat_map
         (fun key =>
            repeat (upper key)
              (occurrences_in row
                 (normalizeToken t) d key))
         field_keys).
Proof.
  intros Hall Hd. unfold _matchUp. rewrite Hd. cbn [Py.bind].
  destruct (match_keys_returns tokenize normalizeToken
              (normalizeToken t) d row field_keys [] Hall) as [out Hout].
  rewrite Hout. f_equal.
  apply match_keys_repeat in Hout. now rewrite Hout, app_nil_l.
Qed.


Lemma match_all_returns row tokens :
  (forall key, key ∈ field_keys -> is_Some (row !! key)) ->
  (forall t, t ∈ tokens ->
     exists d, _parseNumbers (normalizeToken t) = Return d) ->
  exists pairs, match_all row tokens = Return pairs.
Proof.
  intros Hrow. unfold match_all.
  induction tokens as [|t tokens IH]; intros Hparse; cbn [comprehension].
  - eauto.
  - destruct (Hparse t) as [d Hd]; [apply list_elem_of_here|].
    rewrite (matchUp_complete _ _ _ Hrow Hd). cbn [Py.bind].
    destruct IH as [pairs Hpairs].
    { intros t' Ht'. apply Hparse. now apply list_elem_of_further. }
    rewrite Hpairs. cbn [Py.bind]. eauto.
Qed.

(** C8: the translator returns for a record that has a display string and
    the six fields, once every token is parsed without error; and whenever
    it returns, its output is the concatenation of one line per token of the
    display string, in token order and nothing else; the columns of a line
    begin with the raw token and end with the final tag, which is the
    resolver's answer on the token's prefixed matches, and each line, the
    last included, ends with a newline. *)
Theorem translate_row_lines (row : gmap string value) :
  (forall input,
     row !! "input" = Some (VStr input) ->
     (forall key, key ∈ field_keys -> is_Some (row !! key)) ->
     (forall t, t ∈ tokenize (cleanUnicodeFractions input) ->
        exists d, _parseNumbers (normalizeToken t) = Return d) ->
     exists out, fst (translate_row row) = Return out) /\
  (forall out,
     fst (translate_row row) = Return out ->
     exists input pairs,
       row !! "input" = Some (VStr input) /\
       let tokens := tokenize (cleanUnicodeFractions input) in
       match_all (delete "input" row) tokens = Return pairs /\
       let rowData := _addPrefixes pairs in
       map fst rowData = tokens /\
       length rowData = length tokens /\
       out = String.concat ""
               (imap
                  (fun i p =>
                     joinLine
                       ([fst p] ++ getFeatures (fst p) (S i) tokens
                          ++ [_bestTag (snd p)])
                     +:+ String Re.newline EmptyString)
                  rowData)).
Proof.
  split.
  - intros input Hin Hrow Hparse.
    rewrite (translate_row_text _ _ Hin). cbn [fst]. cbv zeta.
    destruct (match_all_returns (delete "input" row)
                (tokenize (cleanUnicodeFractions input))) as [pairs Hpairs].
    + intros key Hkey. rewrite lookup_delete_ne; [now apply Hrow|].
      intros <-. now apply input_not_field in Hkey.
    + exact Hparse.
    + rewrite Hpairs. cbn [Py.bind]. eauto.
  - intros out.
    destruct (row !! "input") as [[input| |]|] eqn:Hin.
    + rewrite (translate_row_text _ _ Hin). cbn [fst]. cbv zeta.
      destruct (match_all _ _) as [pairs|] eqn:Hpairs; [|discriminate].
      cbn [Py.bind]. intros [= <-].
      exists input, pairs. split; [reflexivity|].
      assert (Hfst : map fst (_addPrefixes pairs)
                     = tokenize (cleanUnicodeFractions input)).
      { rewrite addPrefixes_scan, prefix_scan_fst.
        exact (match_all_fst _ _ _ Hpairs). }
      cbv zeta. repeat split.
      * exact Hpairs.
      * exact Hfst.
      * now rewrite <- Hfst, length_map.
      * rewrite emit_lines. reflexivity.
    + unfold translate_row. rewrite Hin. discriminate.
    + unfold translate_row. rewrite Hin. discriminate.
    + rewrite (translate_row_no_input _ Hin). discriminate.
Qed.


(** C5, amended: the record of the example does not hold the fields index,
    range_end and comment, which the matcher reads; with these three present
    and empty, "2 cups flour" is translated to three lines whose final tags
    are B-QTY, B-UNIT and B-NAME. *)
Theorem translate_row_flour :
  cleanUnicodeFractions "2 cups flour" = "2 cups flour" ->
  tokenize "2 cups flour" = ["2"; "cups"; "flour"] ->
  tokenize "cups" = ["cups"] ->
  tokenize "flour" = ["flour"] ->
  (forall t, t ∈ ["2"; "cups"; "flour"] ->
     normalizeToken t = t /\ unclump t = t) ->
  let tokens := ["2"; "cups"; "flour"] in
  match_all (delete "input" Examples.flour) tokens
  = Return [("2", ["QTY"]); ("cups", ["UNIT"]); ("flour", ["NAME"])] /\
  fst (translate_row Examples.flour)
  = Return
      (joinLine (["2"] ++ getFeatures "2" 1 tokens ++ ["B-QTY"])
       +:+ String Re.newline ""
       +:+ joinLine (["cups"] ++ getFeatures "cups" 2 tokens ++ ["B-UNIT"])
       +:+ String Re.newline ""
       +:+ joinLine (["flour"] ++ getFeatures "flour" 3 tokens ++ ["B-NAME"])
       +:+ String Re.newline "").
Proof.
  intros Hclean Htok Hunit Hname Hid tokens.
  assert (H2 : normalizeToken "2" = "2" /\ unclump "2" = "2")
    by (apply Hid, list_elem_of_here).
  assert (Hc : normalizeToken "cups" = "cups" /\ unclump "cups" = "cups")
    by (apply Hid, list_elem_of_further, list_elem_of_here).
  assert (Hf : normalizeToken "flour" = "flour" /\ unclump "flour" = "flour")
    by (apply Hid; do 2 apply list_elem_of_further; apply list_elem_of_here).
  destruct H2 as [Hn2 Hu2], Hc as [Hnc Huc], Hf as [Hnf Huf].
  destruct flour_lookups as (Lin & Li & Ln & Lq & Lr & Lu & Lc).
  assert (Hrow : forall key, key ∈ field_keys ->
                   is_Some (delete "input" Examples.flour !! key)).
  { intros key Hkey. unfold field_keys in Hkey.
    repeat (apply elem_of_cons in Hkey as [->|Hkey]; [eauto|]).
    now apply elem_of_nil in Hkey. }
  assert (Hp2 : _parseNumbers (normalizeToken "2")
                = Return (Some (Decimal.Fin 2))).
  { unfold _parseNumbers. rewrite Hn2, Hu2. vm_compute. reflexivity. }
  assert (Hpc : _parseNumbers (normalizeToken "cups") = Return None).
  { unfold _parseNumbers. rewrite Hnc, Huc. vm_compute. reflexivity. }
  assert (Hpf : _parseNumbers (normalizeToken "flour") = Return None).
  { unfold _parseNumbers. rewrite Hnf, Huf. vm_compute. reflexivity. }
  assert (Hall : match_all (delete "input" Examples.flour) tokens
                 = Return [("2", ["QTY"]); ("cups", ["UNIT"]);
                           ("flour", ["NAME"])]).
  { unfold match_all, tokens. cbn [comprehension].
    rewrite (matchUp_complete _ _ _ Hrow Hp2),
            (matchUp_complete _ _ _ Hrow Hpc),
            (matchUp_complete _ _ _ Hrow Hpf).
    unfold field_keys, occurrences_in. cbn [flat_map].
    rewrite Li, Ln, Lq, Lr, Lu, Lc. unfold occurrences.
    rewrite Hunit, Hname, !filter_cons, !filter_nil, Hn2, Hnc, Hnf.
    vm_compute. reflexivity. }
  split; [exact Hall|].
  rewrite (translate_row_text _ _ Lin). cbn [fst]. cbv zeta.
  rewrite Hclean, Htok. fold tokens. rewrite Hall. cbn [Py.bind].
  rewrite emit_lines.
  change (_addPrefixes _)
    with [("2", ["B-QTY"]); ("cups", ["B-UNIT"]); ("flour", ["B-NAME"])].
  unfold line. cbn [imap compose fst snd Nat.add _bestTag].
  rewrite !concat_empty_cons. cbn [String.concat].
  change ("" +:+ ?x) with x.
  rewrite !ReFacts.append_assoc, ReFacts.append_nil_r. reflexivity.
Qed.

End TranslatorFacts.

(** ** The translator on the example records *)

(** C5 as stated fails: the record of the example has no 'index' field, and
    the matcher raises [KeyError] on the first token. *)
Lemma translate_row_flour_short_raises :
  fst (Plain.translate_row Examples.flour_short) = Raise (KeyError "index").
Proof. vm_compute. reflexivity. Qed.

Lemma translate_row_flour_witness :
  match_all Plain.tokenize Plain.normalizeToken Plain.unclump
    (delete "input" Examples.flour) ["2"; "cups"; "flour"]
  = Return [("2", ["QTY"]); ("cups", ["UNIT"]); ("flour", ["NAME"])] /\
  fst (Plain.translate_row Examples.flour) = Return flour_lines.
Proof.
  apply (translate_row_flour Plain.cleanUnicodeFractions Plain.tokenize
           Plain.normalizeToken Plain.unclump Plain.getFeatures
           Plain.joinLine); try reflexivity.
  intros t _. split; reflexivity.
Defined.

(** C6 as stated fails: the second of two calls on one record raises. *)
Lemma translate_row_second_call_raises :
  let first := Plain.translate_row Examples.flour in
  let second := Plain.translate_row (snd first) in
  fst first = Return flour_lines /\
  fst second = Raise (KeyError "input") /\
  fst first <> fst second.
Proof.
  assert (H1 : fst (Plain.translate_row Examples.flour) = Return flour_lines)
    by (vm_compute; reflexivity).
  assert (H2 : fst (Plain.translate_row
                      (snd (Plain.translate_row Examples.flour)))
               = Raise (KeyError "input")) by (vm_compute; reflexivity).
  cbv zeta. rewrite H1, H2. repeat split. discriminate.
Qed.

Lemma translate_row_twice_witness :
  Plain.translate_row (delete "input" Examples.flour)
  = (Raise (KeyError "input"), delete "input" Examples.flour) /\
  exists input,
    Examples.flour !! "input" = Some (VStr input) /\
    Plain.translate_row
      (<["input" := VStr input]> (delete "input" Examples.flour))
    = (Return flour_lines, delete "input" Examples.flour).
Proof.
  apply (translate_row_twice Plain.cleanUnicodeFractions Plain.tokenize
           Plain.normalizeToken Plain.unclump Plain.getFeatures
           Plain.joinLine Examples.flour flour_lines).
  vm_compute. reflexivity.
Defined.


(** A zero denominator fails before any field is read. *)
Example translate_row_zero_denominator :
  fst (Plain.translate_row {["input" := VStr "1/0 cup"]})
  = Raise ZeroDivisionError.
Proof. vm_compute. reflexivity. Qed.


Lemma translate_row_lines_witness :
  (exists out, fst (Plain.translate_row Examples.flour) = Return out) /\
  exists input pairs,
    Examples.flour !! "input" = Some (VStr input) /\
    let tokens := Plain.tokenize (Plain.cleanUnicodeFractions input) in
    match_all Plain.tokenize Plain.normalizeToken Plain.unclump
      (delete "input" Examples.flour) tokens = Return pairs /\
    let rowData := _addPrefixes pairs in
    map fst rowData = tokens /\
    length rowData = length tokens /\
    flour_lines
    = String.concat ""
        (imap
           (fun i p =>
              Plain.joinLine
                ([fst p] ++ Plain.getFeatures (fst p) (S i) tokens
                   ++ [_bestTag (snd p)])
              +:+ String Re.newline EmptyString)
           rowData).
Proof.
  pose proof (translate_row_lines Plain.cleanUnicodeFractions Plain.tokenize
                Plain.normalizeToken Plain.unclump Plain.getFeatures
                Plain.joinLine Examples.flour) as [Hret Hlines].
  split.
  - apply (Hret "2 cups flour"); [reflexivity | |].
    + intros key Hkey. unfold field_keys in Hkey.
      repeat (apply elem_of_cons in Hkey as [->|Hkey]; [vm_compute; eauto|]).
      now apply elem_of_nil in Hkey.
    + intros t Ht. change (t ∈ ["2"; "cups"; "flour"]) in Ht.
      repeat (apply elem_of_cons in Ht as [->|Ht]; [vm_compute; eauto|]).
      now apply elem_of_nil in Ht.
  - apply (Hlines flour_lines). vm_compute. reflexivity.
Defined.

Lemma translate_row_deletes_input_witness :
  snd (Plain.translate_row Examples.flour) = delete "input" Examples.flour /\
  snd (Plain.translate_row Examples.flour) !! "input" = None /\
  (forall key, key <> "input" ->
     snd (Plain.translate_row Examples.flour) !! key = Examples.flour !! key).
Proof.
  apply (translate_row_deletes_input Plain.cleanUnicodeFractions
           Plain.tokenize Plain.normalizeToken Plain.unclump
           Plain.getFeatures Plain.joinLine Examples.flour).
  right. exists "2 cups flour". reflexivity.
Defined.

(** * Further properties *)

(** ** The tag resolver *)

Lemma bestTag_loop_cases (tags : list string) :
  bestTag_loop tags = "OTHER" \/
  (bestTag_loop tags ∈ tags /\ ~ is_comment (bestTag_loop tags)).
Proof.
  induction tags as [|t tags IH]; simpl; [now left|].
  destruct (String.eqb_spec t "B-COMMENT") as [->|Hb]; simpl.
  - destruct IH as [IH|[IH1 IH2]]; [now left | right].
    split; [now apply list_elem_of_further | exact IH2].
  - destruct (String.eqb_spec t "I-COMMENT") as [->|Hi]; simpl.
    + destruct IH as [IH|[IH1 IH2]]; [now left | right].
      split; [now apply list_elem_of_further | exact IH2].
    + right. split; [apply list_elem_of_here|]. intros [H|H]; contradiction.
Qed.

Lemma bestTag_cases (tags : list string) :
  _bestTag tags = "OTHER" \/ _bestTag tags ∈ tags.
Proof.
  unfold _bestTag. destruct tags as [|t [|u tags]].
  - now left.
  - right. simpl. apply list_elem_of_here.
  - change (length (t :: u :: tags) =? 1)%nat with false. cbv iota.
    destruct (bestTag_loop_cases (t :: u :: tags)) as [H|[H _]]; auto.
Qed.

(** X1: the resolver never invents a label: its answer is "OTHER" or one of
    the candidates; and among several candidates (or none) it never answers
    a comment label. *)
Theorem bestTag_choice (tags : list string) :
  (_bestTag tags = "OTHER" \/ _bestTag tags ∈ tags) /\
  (length tags <> 1%nat -> ~ is_comment (_bestTag tags)).
Proof.
  split; [apply bestTag_cases|].
  intros Hlen. unfold _bestTag. apply Nat.eqb_neq in Hlen. rewrite Hlen.
  destruct (bestTag_loop_cases tags) as [->|[_ H]]; [|exact H].
  intros [H|H]; discriminate H.
Qed.

Lemma bestTag_choice_witness :
  (_bestTag ["I-COMMENT"; "B-UNIT"; "B-NAME"] = "OTHER" \/
   _bestTag ["I-COMMENT"; "B-UNIT"; "B-NAME"]
   ∈ ["I-COMMENT"; "B-UNIT"; "B-NAME"]) /\
  ~ is_comment (_bestTag ["I-COMMENT"; "B-UNIT"; "B-NAME"]).
Proof.
  destruct (bestTag_choice ["I-COMMENT"; "B-UNIT"; "B-NAME"]) as [H1 H2].
  split; [exact H1 | apply H2; simpl; lia].
Defined.

(** ** The BIO prefixer *)

Lemma strip_prefixed prevTags t : strip_prefix (prefixed prevTags t) = t.
Proof.
  unfold prefixed. destruct prevTags as [prev|]; [|reflexivity].
  now destruct (negb (existsb (String.eqb t) prev)).
Qed.

(** X2: taking the two-character prefix off every label of the prefixer's
    output gives back its input: nothing is added, dropped or reordered. *)
Theorem addPrefixes_strip (data : list (string * list string)) :
  map (fun p => (fst p, map strip_prefix (snd p))) (_addPrefixes data) = data.
Proof.
  rewrite addPrefixes_scan. generalize (@None (list string)).
  induction data as [|[token tags] data IH]; intros prevTags; simpl;
    [reflexivity|].
  rewrite IH, List.map_map. f_equal. f_equal.
  rewrite (List.map_ext _ (fun t => t) (strip_prefixed prevTags)).
  apply List.map_id.
Qed.

Lemma prefix_scan_lookup_inv prevTags data i token labels :
  prefix_scan prevTags data !! i = Some (token, labels) ->
  exists tags,
    data !! i = Some (token, tags) /\
    labels = map (prefixed (match i with
                            | O => prevTags
                            | S j => snd <$> data !! j
                            end)) tags.
Proof.
  revert prevTags i.
  induction data as [|[t ts] data IH]; intros prevTags i; [discriminate|].
  destruct i as [|i]; simpl.
  - intros [= <- <-]. eauto.
  - intros H. destruct (IH _ _ H) as (tags & Hi & ->).
    exists tags. split; [exact Hi|].
    destruct i as [|i]; [reflexivity|]. reflexivity.
Qed.

Lemma prefixed_inside prevTags t F :
  prefixed prevTags t = "I-" +:+ F ->
  t = F /\ exists prev, prevTags = Some prev /\ F ∈ prev.
Proof.
  unfold prefixed. destruct prevTags as [prev|]; [|discriminate].
  rewrite existsb_elem_of.
  destruct (decide (t ∈ prev)) as [Hin|Hnin].
  - rewrite (bool_decide_eq_true_2 _ Hin). intros H.
    change (String "I" (String "-" t) = String "I" (String "-" F)) in H.
    injection H as ->. eauto.
  - rewrite (bool_decide_eq_false_2 _ Hnin). discriminate.
Qed.

Lemma prefixed_cases prevTags F :
  prefixed prevTags F = "B-" +:+ F \/ prefixed prevTags F = "I-" +:+ F.
Proof.
  unfold prefixed. destruct prevTags as [prev|]; [|now left].
  destruct (negb (existsb (String.eqb F) prev)); [now left | now right].
Qed.

(** X3: the output is well-formed BIO: a label "I-F" never begins a run.
    It is never given to the first token, and wherever a token has it, the
    token just before has a label for the same field F. *)
Theorem addPrefixes_inside_continues (data : list (string * list string))
    (i : nat) (token : string) (labels : list string) (F : string) :
  _addPrefixes data !! i = Some (token, labels) ->
  ("I-" +:+ F) ∈ labels ->
  exists j ptoken plabels,
    i = S j /\
    _addPrefixes data !! j = Some (ptoken, plabels) /\
    (("B-" +:+ F) ∈ plabels \/ ("I-" +:+ F) ∈ plabels).
Proof.
  rewrite addPrefixes_scan. intros Hi HF.
  destruct (prefix_scan_lookup_inv _ _ _ _ _ Hi) as (tags & Hdata & ->).
  apply list_elem_of_In, in_map_iff in HF as (t & Ht & _).
  apply prefixed_inside in Ht as (-> & prev & Hprev & HFprev).
  destruct i as [|j]; [discriminate|].
  destruct (data !! j) as [[ptoken ptags]|] eqn:Hj; [|discriminate].
  injection Hprev as <-. cbn [snd] in HFprev.
  destruct (prefix_scan_lookup None data j ptoken ptags Hj) as [pprev Hout].
  exists j, ptoken, (map (prefixed pprev) ptags).
  split; [reflexivity|]. split; [exact Hout|].
  assert (Hin : prefixed pprev F ∈ map (prefixed pprev) ptags).
  { apply list_elem_of_In, in_map. now apply list_elem_of_In. }
  destruct (prefixed_cases pprev F) as [<-|<-]; auto.
Qed.

Lemma addPrefixes_inside_continues_witness :
  exists j ptoken plabels,
    1%nat = S j /\
    _addPrefixes [("olive", ["NAME"]); ("oil", ["NAME"; "COMMENT"])] !! j
    = Some (ptoken, plabels) /\
    (("B-" +:+ "NAME") ∈ plabels \/ ("I-" +:+ "NAME") ∈ plabels).
Proof.
  apply (addPrefixes_inside_continues
           [("olive", ["NAME"]); ("oil", ["NAME"; "COMMENT"])]
           1 "oil" ["I-NAME"; "B-COMMENT"] "NAME").
  - reflexivity.
  - apply list_elem_of_here.
Defined.

(** ** The numeric parser *)

Module ShapeFacts.

Import Re Scan ReFacts SpanFacts LiteralFacts.

Lemma newline_not_digit : digit newline = false.
Proof. reflexivity. Qed.

Lemma span_all p g : all_of p g = true -> span p g = (g, "").
Proof.
  intros Hg. pose proof (span_run p g "" Hg I) as H.
  now rewrite append_nil_r in H.
Qed.

Lemma scan_integer_shape ss g :
  scan_integer ss = Some g <-> g = [] /\ is_integer_text ss.
Proof.
  unfold scan_integer, is_integer_text. split.
  - destruct (span digit ss) as [[|d ds] r] eqn:Hspan; [discriminate|].
    destruct (at_eol r) eqn:Hr; [|discriminate]. intros [= <-].
    split; [reflexivity|].
    destruct (span_split _ _ _ _ Hspan) as [-> Hd].
    exists (String d ds). repeat split; [discriminate | exact Hd |].
    destruct r as [|x [|y r]]; try discriminate Hr.
    + left. now rewrite append_nil_r.
    + right. simpl in Hr. apply Ascii.eqb_eq in Hr. now subst x.
  - intros (-> & ds & Hne & Hd & [-> | ->]).
    + rewrite (span_all _ _ Hd).
      destruct ds; [congruence | reflexivity].
    + rewrite (span_run digit ds (String newline "") Hd newline_not_digit).
      destruct ds; [congruence | reflexivity].
Qed.

Lemma scan_mixed_shape ss m1 :
  scan_mixed ss = Some m1 <->
  exists ds ws a b rest,
    ds <> "" /\ all_of digit ds = true /\
    ws <> "" /\ all_of space ws = true /\
    digit a = true /\ digit b = true /\
    ss = ds +:+ ws +:+ String a (String "/" (String b rest)) /\
    m1 = [ds; String a ""; String b ""].
Proof.
  split.
  - unfold scan_mixed.
    destruct (span digit ss) as [[|d ds] r1] eqn:Hspan; [discriminate|].
    destruct (span_split _ _ _ _ Hspan) as [-> Hd].
    destruct (span space r1) as [[|w ws] r2] eqn:Hspan2; [discriminate|].
    destruct (span_split _ _ _ _ Hspan2) as [-> Hw].
    destruct r2 as [|a [|c [|b r]]]; try discriminate.
    destruct (digit a) eqn:Ha; [|discriminate].
    destruct (Ascii.eqb_spec "/"%char c) as [<-|]; [|discriminate].
    destruct (digit b) eqn:Hb; [|discriminate].
    intros [= <-].
    exists (String d ds), (String w ws), a, b, r.
    repeat split; auto; discriminate.
  - intros (ds & ws & a & b & rest & Hds & Hd & Hws & Hw & Ha & Hb & -> & ->).
    assert (Hstop1 : stops digit
              (ws +:+ String a (String "/" (String b rest)))).
    { destruct ws as [|w ws]; [congruence|]. simpl in Hw.
      apply andb_true_iff in Hw as [Hw _]. exact (space_not_digit _ Hw). }
    assert (Hstop2 : stops space (String a (String "/" (String b rest))))
      by exact (digit_not_space _ Ha).
    unfold scan_mixed.
    rewrite (span_run _ _ _ Hd Hstop1), (span_run _ _ _ Hw Hstop2).
    destruct ds as [|d ds]; [congruence|].
    destruct ws as [|w ws]; [congruence|].
    now rewrite Ha, Hb.
Qed.

Lemma scan_fraction_shape ss m2 :
  scan_fraction ss = Some m2 <->
  exists a b,
    digit a = true /\ digit b = true /\
    (ss = String a (String "/" (String b ""))
     \/ ss = String a (String "/" (String b (String newline "")))) /\
    m2 = [String a ""; String b ""].
Proof.
  unfold scan_fraction. split.
  - destruct ss as [|a [|c [|b r]]]; try discriminate.
    destruct (digit a) eqn:Ha; [|discriminate].
    destruct (Ascii.eqb_spec "/"%char c) as [<-|]; [|discriminate].
    destruct (digit b) eqn:Hb; [|discriminate].
    destruct (at_eol r) eqn:Hr; [|discriminate]. intros [= <-].
    exists a, b. repeat split; auto.
    destruct r as [|x [|y r]]; try discriminate Hr; [now left|].
    right. simpl in Hr. apply Ascii.eqb_eq in Hr. now subst x.
  - intros (a & b & Ha & Hb & [-> | ->] & ->); now rewrite Ha, Hb.
Qed.

(** A fraction is neither an integer nor the beginning of a mixed number. *)
Lemma fraction_not_other ss :
  is_fraction_text ss -> scan_integer ss = None /\ scan_mixed ss = None.
Proof.
  intros (a & b & Ha & Hb & Hss).
  unfold scan_integer, scan_mixed.
  destruct Hss as [-> | ->]; simpl; rewrite Ha; simpl; auto.
Qed.

Lemma mixed_not_integer ss : has_mixed_prefix ss -> scan_integer ss = None.
Proof.
  intros (ds & ws & a & b & rest & Hds & Hd & Hws & Hw & Ha & Hb & ->).
  destruct (scan_integer _) as [g|] eqn:H; [|reflexivity].
  apply scan_integer_shape in H as (_ & ds' & Hne' & Hd' & Hss).
  exfalso.
  assert (Hstop1 : stops digit
            (ws +:+ String a (String "/" (String b rest)))).
  { destruct ws as [|w ws]; [congruence|]. simpl in Hw.
    apply andb_true_iff in Hw as [Hw _]. exact (space_not_digit _ Hw). }
  pose proof (span_run _ _ _ Hd Hstop1) as Hspan.
  destruct Hss as [Hss|Hss]; rewrite Hss in Hspan.
  - rewrite (span_all _ _ Hd') in Hspan.
    injection Hspan as _ Hrest. destruct ws; [congruence | discriminate].
  - rewrite (span_run digit ds' (String newline "") Hd' newline_not_digit) in Hspan.
    injection Hspan as _ Hrest.
    destruct ws as [|w [|w' ws]]; [congruence | discriminate | discriminate].
Qed.

End ShapeFacts.

Section ParserShapes.

Import Re Scan ReFacts SpanFacts LiteralFacts ShapeFacts.

Variable unclump : string -> string.

(** What the parser computes on each of the three shapes. *)
Lemma parseNumbers_integer_text s ds :
  ds <> "" -> all_of digit ds = true ->
  unclump s = ds \/ unclump s = ds +:+ String newline "" ->
  _parseNumbers unclump s
  = Return (Some (Decimal.of_float
                    (Float.round2 (Float.of_Z (digits_value 0 ds))))).
Proof.
  intros Hne Hd Hs. unfold _parseNumbers. cbv zeta.
  assert (H3 : scan_integer (unclump s) = Some []).
  { apply scan_integer_shape. split; [reflexivity|]. now exists ds. }
  rewrite rmatch_integer, H3. unfold float_of_str.
  destruct ds as [|d ds]; [congruence|].
  destruct Hs as [-> | ->].
  - rewrite <- (append_nil_r (String d ds)) at 1.
    now rewrite (int_of_str_digits _ _ "" Hd eq_refl).
  - now rewrite (int_of_str_digits _ _ (String newline "") Hd eq_refl).
Qed.

Lemma parseNumbers_mixed_text s ds ws a b rest :
  ds <> "" -> all_of digit ds = true ->
  ws <> "" -> all_of space ws = true ->
  digit a = true -> digit b = true ->
  unclump s = ds +:+ ws +:+ String a (String "/" (String b rest)) ->
  _parseNumbers unclump s
  = mixed_number (digits_value 0 ds) (digit_value a) (digit_value b).
Proof.
  intros Hds Hd Hws Hw Ha Hb Hs. unfold _parseNumbers. cbv zeta.
  assert (Hshape : has_mixed_prefix (unclump s))
    by (exists ds, ws, a, b, rest; auto 10).
  assert (H1 : scan_mixed (unclump s) = Some [ds; String a ""; String b ""]).
  { apply scan_mixed_shape. exists ds, ws, a, b, rest. auto 10. }
  rewrite rmatch_integer, (mixed_not_integer _ Hshape), rmatch_mixed, H1.
  cbn [nth]. destruct ds as [|d ds]; [congruence|].
  rewrite <- (append_nil_r (String d ds)) at 1.
  rewrite (int_of_str_digits _ _ "" Hd eq_refl).
  rewrite (float_of_str_digit _ Ha), (float_of_str_digit _ Hb).
  reflexivity.
Qed.

Lemma parseNumbers_fraction_text s a b :
  digit a = true -> digit b = true ->
  unclump s = String a (String "/" (String b ""))
  \/ unclump s = String a (String "/" (String b (String newline ""))) ->
  _parseNumbers unclump s = simple_fraction (digit_value a) (digit_value b).
Proof.
  intros Ha Hb Hs. unfold _parseNumbers. cbv zeta.
  assert (Hshape : is_fraction_text (unclump s)) by (exists a, b; auto).
  destruct (fraction_not_other _ Hshape) as [H3 H1].
  assert (H2 : scan_fraction (unclump s) = Some [String a ""; String b ""]).
  { apply scan_fraction_shape. exists a, b. auto. }
  rewrite rmatch_integer, H3, rmatch_mixed, H1, rmatch_fraction, H2.
  cbn [nth].
  rewrite (float_of_str_digit _ Ha), (float_of_str_digit _ Hb).
  reflexivity.
Qed.

Lemma mixed_number_not_none n x y : mixed_number n x y <> Return None.
Proof.
  unfold mixed_number.
  destruct (Float.div _ _) as [q|]; cbn [Py.bind]; [|discriminate].
  destruct (int_add_float n q); discriminate.
Qed.

Lemma simple_fraction_not_none x y : simple_fraction x y <> Return None.
Proof.
  unfold simple_fraction.
  destruct (Float.div _ _) as [q|]; discriminate.
Qed.

(** X4: the parser answers "no match" exactly for the text that is none of:
    a run of digits, the beginning [<digits> <blanks> <digit>/<digit>] of a
    mixed number, or [<digit>/<digit>]; a single newline may end the first
    and the third. *)
Theorem parseNumbers_no_match (s : string) :
  _parseNumbers unclump s = Return None <->
  ~ (is_integer_text (unclump s) \/ has_mixed_prefix (unclump s)
     \/ is_fraction_text (unclump s)).
Proof.
  split.
  - intros Hnone [Hi|[Hm|Hf]].
    + destruct Hi as (ds & Hne & Hd & Hs).
      rewrite (parseNumbers_integer_text s ds Hne Hd Hs) in Hnone.
      discriminate.
    + destruct Hm as (ds & ws & a & b & rest & Hds & Hd & Hws & Hw & Ha & Hb
                       & Hs).
      rewrite (parseNumbers_mixed_text s ds ws a b rest) in Hnone by auto.
      now apply mixed_number_not_none in Hnone.
    + destruct Hf as (a & b & Ha & Hb & Hs).
      rewrite (parseNumbers_fraction_text s a b Ha Hb Hs) in Hnone.
      now apply simple_fraction_not_none in Hnone.
  - intros Hnot. unfold _parseNumbers. cbv zeta.
    rewrite rmatch_integer, rmatch_mixed, rmatch_fraction.
    destruct (scan_integer (unclump s)) as [g|] eqn:H3.
    { exfalso. apply Hnot. left. now apply scan_integer_shape in H3. }
    destruct (scan_mixed (unclump s)) as [m1|] eqn:H1.
    { exfalso. apply Hnot. right. left.
      apply scan_mixed_shape in H1
        as (ds & ws & a & b & rest & ? & ? & ? & ? & ? & ? & ? & _).
      exists ds, ws, a, b, rest. auto 10. }
    destruct (scan_fraction (unclump s)) as [m2|] eqn:H2; [|reflexivity].
    exfalso. apply Hnot. right. right.
    apply scan_fraction_shape in H2 as (a & b & ? & ? & ? & _).
    exists a, b. auto.
Qed.

End ParserShapes.

(** X5: a newline at the end of a run of digits or of [<digit>/<digit>]
    is accepted and changes nothing: ['$'] also matches just before it. *)
Theorem parseNumbers_final_newline (unclump : string -> string) (s : string) :
  (forall ds,
     ds <> "" -> Scan.all_of Re.digit ds = true ->
     unclump s = ds +:+ String Re.newline "" ->
     _parseNumbers unclump s = _parseNumbers (fun x => x) ds /\
     _parseNumbers unclump s <> Return None) /\
  (forall a b,
     Re.digit a = true -> Re.digit b = true ->
     unclump s = String a (String "/" (String b (String Re.newline ""))) ->
     _parseNumbers unclump s
     = _parseNumbers (fun x => x) (String a (String "/" (String b ""))) /\
     _parseNumbers unclump s <> Return None).
Proof.
  split.
  - intros ds Hne Hd Hs.
    rewrite (parseNumbers_integer_text unclump s ds Hne Hd (or_intror Hs)).
    rewrite (parseNumbers_integer_text (fun x => x) ds ds Hne Hd
               (or_introl eq_refl)).
    split; [reflexivity | discriminate].
  - intros a b Ha Hb Hs.
    rewrite (parseNumbers_fraction_text unclump s a b Ha Hb (or_intror Hs)).
    rewrite (parseNumbers_fraction_text (fun x => x) _ a b Ha Hb
               (or_introl eq_refl)).
    split; [reflexivity | apply simple_fraction_not_none].
Qed.

Lemma parseNumbers_final_newline_witness :
  let nl := String Re.newline "" in
  Plain._parseNumbers ("12" +:+ nl) = Plain._parseNumbers "12" /\
  Plain._parseNumbers ("3/4" +:+ nl) = Plain._parseNumbers "3/4".
Proof.
  intros nl. split.
  - apply (proj1 (parseNumbers_final_newline Plain.unclump ("12" +:+ nl)) "12");
      [discriminate | reflexivity | reflexivity].
  - apply (proj2 (parseNumbers_final_newline Plain.unclump ("3/4" +:+ nl))
             "3"%char "4"%char); reflexivity.
Defined.

Lemma parseNumbers_no_match_witness :
  Plain._parseNumbers "10/20" = Return None /\
  Plain._parseNumbers "1 1/2x" <> Return None.
Proof.
  split.
  - apply (proj2 (parseNumbers_no_match Plain.unclump "10/20")).
    intros H. apply (proj1 (parseNumbers_no_match Plain.unclump "10/20")) in H;
      [exact H | reflexivity].
  - intros H. apply (proj1 (parseNumbers_no_match Plain.unclump "1 1/2x")) in H.
    apply H. right. left.
    exists "1", " ", "1"%char, "2"%char, "x".
    repeat split; discriminate.
Defined.

(** *** Digits and small numbers *)

Lemma digit_value_range c : Re.digit c = true -> (0 <= digit_value c <= 9)%Z.
Proof.
  unfold Re.digit, digit_value. intros H.
  apply andb_true_iff in H as [H1 H2]. apply Nat.leb_le in H1, H2. lia.
Qed.

Lemma digit_value_zero c :
  Re.digit c = true -> (digit_value c = 0%Z <-> c = "0"%char).
Proof.
  intros H. split; [|now intros ->].
  unfold Re.digit in H. unfold digit_value. intros Hz.
  apply andb_true_iff in H as [H1 _]. apply Nat.leb_le in H1.
  assert (Hn : nat_of_ascii c = 48%nat) by lia.
  rewrite <- (ascii_nat_embedding c), Hn. reflexivity.
Qed.

Lemma digits_value_nonneg s acc :
  Scan.all_of Re.digit s = true -> (0 <= acc)%Z ->
  (0 <= digits_value acc s)%Z.
Proof.
  revert acc. induction s as [|c s IH]; intros acc Hs Hacc; simpl; [exact Hacc|].
  simpl in Hs. apply andb_true_iff in Hs as [Hc Hs].
  apply IH; [exact Hs|]. pose proof (digit_value_range c Hc). lia.
Qed.

Lemma zrange_In (k : nat) (n : Z) :
  (0 <= n < Z.of_nat k)%Z -> In n (zrange k).
Proof.
  intros Hn. unfold zrange. apply in_map_iff.
  exists (Z.to_nat n). split; [lia|]. apply in_seq. lia.
Qed.

Lemma div_by_zero x : Float.div x (Float.of_Z 0) = Raise ZeroDivisionError.
Proof. reflexivity. Qed.

Lemma div_by_digit x y :
  (1 <= y <= 9)%Z ->
  Float.div x (Float.of_Z y)
  = Return (SFdiv Float.prec Float.emax x (Float.of_Z y)).
Proof.
  intros Hy.
  assert (H : (y = 1 \/ y = 2 \/ y = 3 \/ y = 4 \/ y = 5 \/ y = 6
               \/ y = 7 \/ y = 8 \/ y = 9)%Z) by lia.
  repeat (destruct H as [-> | H]; [reflexivity|]). now subst y.
Qed.

Lemma returns_decimal_eq r q :
  returns_decimal r q = true -> r = Return (Some (Decimal.Fin q)).
Proof.
  unfold returns_decimal, Q_same.
  destruct r as [[[[n d]| |]|]|]; try discriminate.
  destruct q as [n' d']. simpl. intros H.
  apply andb_true_iff in H as [Hn Hd].
  apply Z.eqb_eq in Hn. apply Pos.eqb_eq in Hd. now subst.
Qed.

(** Every integer below 10000, every mixed number with an integer part
    below 100 and every simple fraction has been computed. *)
Lemma integer_all_ok : forallb integer_ok (zrange (100 * 100)) = true.
Proof. vm_compute. reflexivity. Qed.

Lemma mixed_all_ok :
  forallb
    (fun n =>
       forallb
         (fun x => forallb (fun y => mixed_ok n x (y + 1)) (zrange 9))
         (zrange 10))
    (zrange 100)
  = true.
Proof. vm_compute. reflexivity. Qed.

Lemma fraction_all_ok :
  forallb (fun x => forallb (fun y => fraction_ok x (y + 1)) (zrange 9))
    (zrange 10)
  = true.
Proof. vm_compute. reflexivity. Qed.

Lemma mixed_number_value n x y :
  (0 <= n < 100)%Z -> (0 <= x <= 9)%Z -> (1 <= y <= 9)%Z ->
  mixed_number n x y
  = Return (Some (Decimal.Fin (round_hundredths n x y))).
Proof.
  intros Hn Hx Hy. apply returns_decimal_eq.
  pose proof mixed_all_ok as H.
  rewrite forallb_forall in H. specialize (H n (zrange_In 100 n Hn)).
  rewrite forallb_forall in H.
  specialize (H x (zrange_In 10 x ltac:(lia))).
  rewrite forallb_forall in H.
  specialize (H (y - 1)%Z (zrange_In 9 (y - 1) ltac:(lia))).
  now replace (y - 1 + 1)%Z with y in H by lia.
Qed.

Lemma simple_fraction_value x y :
  (0 <= x <= 9)%Z -> (1 <= y <= 9)%Z ->
  simple_fraction x y
  = Return (Some (Decimal.Fin (round_hundredths 0 x y))).
Proof.
  intros Hx Hy. apply returns_decimal_eq.
  pose proof fraction_all_ok as H.
  rewrite forallb_forall in H.
  specialize (H x (zrange_In 10 x ltac:(lia))).
  rewrite forallb_forall in H.
  specialize (H (y - 1)%Z (zrange_In 9 (y - 1) ltac:(lia))).
  now replace (y - 1 + 1)%Z with y in H by lia.
Qed.

Lemma integer_value n :
  (0 <= n < 10000)%Z ->
  Decimal.of_float (Float.round2 (Float.of_Z n)) = Decimal.Fin (n # 1).
Proof.
  intros Hn. pose proof integer_all_ok as H.
  rewrite forallb_forall in H.
  specialize (H n (zrange_In (100 * 100) n ltac:(simpl; lia))).
  unfold integer_ok in H. apply returns_decimal_eq in H.
  now injection H.
Qed.

(** X6: a run of digits that reads as a number below 10000 is parsed as
    exactly that number, leading zeros or a final newline notwithstanding. *)
Theorem parseNumbers_integer_value (unclump : string -> string)
    (s ds : string) :
  ds <> "" -> Scan.all_of Re.digit ds = true ->
  unclump s = ds \/ unclump s = ds +:+ String Re.newline "" ->
  (digits_value 0 ds < 10000)%Z ->
  _parseNumbers unclump s
  = Return (Some (Decimal.Fin (digits_value 0 ds # 1))).
Proof.
  intros Hne Hd Hs Hlt.
  rewrite (parseNumbers_integer_text unclump s ds Hne Hd Hs).
  rewrite integer_value; [reflexivity|].
  split; [|exact Hlt]. now apply digits_value_nonneg.
Qed.

Lemma parseNumbers_integer_value_witness :
  Plain._parseNumbers "0250" = Return (Some (Decimal.Fin 250)).
Proof.
  apply (parseNumbers_integer_value Plain.unclump "0250" "0250");
    [discriminate | reflexivity | now left | reflexivity].
Defined.

(** X7: a simple fraction [a/b] with a denominator other than 0 is parsed
    as a/b rounded to a multiple of 1/100, a half rounded upwards (1/8 is
    0.13). *)
Theorem parseNumbers_fraction_value (unclump : string -> string)
    (s : string) (a b : ascii) :
  Re.digit a = true -> Re.digit b = true -> b <> "0"%char ->
  unclump s = String a (String "/" (String b ""))
  \/ unclump s = String a (String "/" (String b (String Re.newline ""))) ->
  _parseNumbers unclump s
  = Return (Some (Decimal.Fin
                    (round_hundredths 0 (digit_value a) (digit_value b)))).
Proof.
  intros Ha Hb Hnz Hs.
  rewrite (parseNumbers_fraction_text unclump s a b Ha Hb Hs).
  pose proof (digit_value_range a Ha). pose proof (digit_value_range b Hb).
  apply simple_fraction_value; [lia|].
  assert (digit_value b <> 0%Z)
    by (intros Hz; now apply (digit_value_zero b Hb) in Hz).
  lia.
Qed.

Lemma parseNumbers_fraction_value_witness :
  Plain._parseNumbers "1/8" = Return (Some (Decimal.Fin (13 # 100))) /\
  Plain._parseNumbers "2/3" = Return (Some (Decimal.Fin (67 # 100))).
Proof.
  split.
  - apply (parseNumbers_fraction_value Plain.unclump "1/8" "1" "8");
      [reflexivity | reflexivity | discriminate | now left].
  - apply (parseNumbers_fraction_value Plain.unclump "2/3" "2" "3");
      [reflexivity | reflexivity | discriminate | now left].
Defined.

(** X8: text that begins with a mixed number whose integer part is below
    100 and whose denominator is not 0 is parsed as integer part plus
    numerator/denominator, rounded to a multiple of 1/100 with a half
    rounded upwards; what follows the denominator is ignored. *)
Theorem parseNumbers_mixed_value (unclump : string -> string)
    (s ds ws : string) (a b : ascii) (rest : string) :
  ds <> "" -> Scan.all_of Re.digit ds = true ->
  ws <> "" -> Scan.all_of Re.space ws = true ->
  Re.digit a = true -> Re.digit b = true -> b <> "0"%char ->
  unclump s = ds +:+ ws +:+ String a (String "/" (String b rest)) ->
  (digits_value 0 ds < 100)%Z ->
  _parseNumbers unclump s
  = Return (Some (Decimal.Fin
                    (round_hundredths (digits_value 0 ds)
                       (digit_value a) (digit_value b)))).
Proof.
  intros Hds Hd Hws Hw Ha Hb Hnz Hs Hlt.
  rewrite (parseNumbers_mixed_text unclump s ds ws a b rest) by assumption.
  pose proof (digit_value_range a Ha). pose proof (digit_value_range b Hb).
  pose proof (digits_value_nonneg ds 0 Hd ltac:(lia)).
  apply mixed_number_value; [lia | lia |].
  assert (digit_value b <> 0%Z)
    by (intros Hz; now apply (digit_value_zero b Hb) in Hz).
  lia.
Qed.

Lemma parseNumbers_mixed_value_witness :
  Plain._parseNumbers "2 5/8 cups" = Return (Some (Decimal.Fin (263 # 100))).
Proof.
  apply (parseNumbers_mixed_value Plain.unclump "2 5/8 cups" "2" " "
           "5" "8" " cups");
    try reflexivity; discriminate.
Defined.

Section ParserErrors.

Import Re Scan.

Variable unclump : string -> string.

Lemma mixed_number_zero n x y :
  (0 <= y <= 9)%Z ->
  mixed_number n x y = Raise ZeroDivisionError <-> y = 0%Z.
Proof.
  intros Hy. unfold mixed_number. split.
  - intros H. destruct (Z.eq_dec y 0%Z) as [Hz|Hz]; [exact Hz|]. exfalso.
    rewrite div_by_digit in H by lia. cbn [Py.bind] in H.
    revert H. unfold int_add_float.
    destruct (Float.of_Z n); discriminate.
  - intros ->. now rewrite div_by_zero.
Qed.

Lemma simple_fraction_zero x y :
  (0 <= y <= 9)%Z ->
  simple_fraction x y = Raise ZeroDivisionError <-> y = 0%Z.
Proof.
  intros Hy. unfold simple_fraction. split.
  - intros H. destruct (Z.eq_dec y 0%Z) as [Hz|Hz]; [exact Hz|]. exfalso.
    rewrite div_by_digit in H by lia. discriminate H.
  - intros ->. now rewrite div_by_zero.
Qed.

(** X9: the parser raises only [ZeroDivisionError] or [OverflowError], never
    a conversion error; and on a mixed number or a simple fraction it raises
    [ZeroDivisionError] exactly when the denominator is the digit 0. *)
Theorem parseNumbers_errors (s : string) :
  (forall e, _parseNumbers unclump s = Raise e ->
     e = ZeroDivisionError \/ e = OverflowError) /\
  (forall ds ws a b rest,
     ds <> "" -> all_of digit ds = true ->
     ws <> "" -> all_of space ws = true ->
     digit a = true -> digit b = true ->
     unclump s = ds +:+ ws +:+ String a (String "/" (String b rest)) ->
     (_parseNumbers unclump s = Raise ZeroDivisionError <-> b = "0"%char)) /\
  (forall a b,
     digit a = true -> digit b = true ->
     unclump s = String a (String "/" (String b ""))
     \/ unclump s = String a (String "/" (String b (String newline ""))) ->
     (_parseNumbers unclump s = Raise ZeroDivisionError <-> b = "0"%char)).
Proof.
  split; [|split].
  - intros e. apply parseNumbers_raises.
  - intros ds ws a b rest Hds Hd Hws Hw Ha Hb Hs.
    rewrite (parseNumbers_mixed_text unclump s ds ws a b rest) by assumption.
    rewrite mixed_number_zero by (pose proof (digit_value_range b Hb); lia).
    now apply digit_value_zero.
  - intros a b Ha Hb Hs.
    rewrite (parseNumbers_fraction_text unclump s a b Ha Hb Hs).
    rewrite simple_fraction_zero by (pose proof (digit_value_range b Hb); lia).
    now apply digit_value_zero.
Qed.

End ParserErrors.

Lemma parseNumbers_errors_witness :
  Plain._parseNumbers "3 1/0" = Raise ZeroDivisionError /\
  Plain._parseNumbers "1/0" = Raise ZeroDivisionError.
Proof.
  destruct (parseNumbers_errors Plain.unclump "3 1/0") as (_ & Hm & _).
  destruct (parseNumbers_errors Plain.unclump "1/0") as (_ & _ & Hf).
  split.
  - apply (Hm "3" " " "1"%char "0"%char ""); try reflexivity; discriminate.
  - apply (Hf "1"%char "0"%char); try reflexivity. now left.
Defined.

(** ** The token-to-field matcher *)

Lemma flat_map_repeat_in (keys : list string) (n : string -> nat) name :
  name ∈ flat_map (fun key => repeat (upper key) (n key)) keys <->
  exists key, key ∈ keys /\ name = upper key /\ 0 < n key.
Proof.
  rewrite list_elem_of_In, in_flat_map. split.
  - intros (key & Hkey & Hin). exists key.
    apply repeat_spec in Hin as Heq. split; [now apply list_elem_of_In|].
    split; [exact Heq|]. destruct (n key); [contradiction | lia].
  - intros (key & Hkey & -> & Hn). exists key.
    split; [now apply list_elem_of_In|].
    destruct (n key); [lia | now left].
Qed.

Lemma upper_field_inj key key' :
  key ∈ field_keys -> key' ∈ field_keys -> upper key = upper key' ->
  key = key'.
Proof.
  unfold field_keys. intros H H'.
  repeat (apply elem_of_cons in H as [-> | H]);
    try (now apply elem_of_nil in H);
    repeat (apply elem_of_cons in H' as [-> | H']);
    try (now apply elem_of_nil in H');
    intros Heq; first [reflexivity | discriminate Heq].
Qed.

Section MatcherMore.

Variable tokenize : string -> list string.
Variable normalizeToken : string -> string.
Variable unclump : string -> string.

Local Abbreviation _parseNumbers := (_parseNumbers unclump).
Local Abbreviation _matchUp := (_matchUp tokenize normalizeToken unclump).
Local Abbreviation match_keys := (match_keys tokenize normalizeToken).
Local Abbreviation occurrences := (occurrences tokenize normalizeToken).
Local Abbreviation occurrences_in :=
  (occurrences_in tokenize normalizeToken).
Local Abbreviation field_matches :=
  (field_matches tokenize normalizeToken).

Lemma match_keys_ext token d row row' keys ret :
  (forall key, key ∈ keys -> row !! key = row' !! key) ->
  match_keys token d row keys ret = match_keys token d row' keys ret.
Proof.
  revert ret. induction keys as [|key keys IH]; intros ret H; simpl;
    [reflexivity|].
  rewrite <- (H key) by apply list_elem_of_here.
  assert (Hrest : forall k, k ∈ keys -> row !! k = row' !! k)
    by (intros k Hk; apply H; now apply list_elem_of_further).
  destruct (row !! key) as [[s|dec|]|]; [| | |reflexivity];
    try destruct d; now rewrite IH.
Qed.

(** X10: the matcher reads the six fields and nothing else: two records
    that agree on them match alike.  In particular the display string kept
    under 'input' plays no part in matching, deleted or not. *)
Theorem matchUp_frame (token : string) (row row' : gmap string value) :
  (forall key, key ∈ field_keys -> row !! key = row' !! key) ->
  _matchUp token row = _matchUp token row'.
Proof.
  intros H. unfold _matchUp.
  destruct (_parseNumbers (normalizeToken token)) as [d|e]; [|reflexivity].
  cbn [Py.bind]. now apply match_keys_ext.
Qed.

Lemma occurrences_pos token d val :
  0 < occurrences token d val <-> field_matches token d val.
Proof.
  destruct val as [s|v|]; simpl.
  - split.
    + intros H.
      destruct (filter _ (tokenize s)) as [|vt l] eqn:Hf; [simpl in H; lia|].
      assert (Hvt : vt ∈ filter
                  (fun vt => String.eqb (normalizeToken vt) token = true)
                  (tokenize s)) by (rewrite Hf; apply list_elem_of_here).
      apply list_elem_of_filter in Hvt as [Heq Hin].
      exists vt. split; [exact Hin | now apply String.eqb_eq].
    + intros (vt & Hin & Heq).
      assert (Hvt : vt ∈ filter
                  (fun vt => String.eqb (normalizeToken vt) token = true)
                  (tokenize s)).
      { apply list_elem_of_filter. split; [|exact Hin].
        now apply String.eqb_eq. }
      destruct (filter _ (tokenize s)); [now apply elem_of_nil in Hvt|].
      simpl. lia.
  - destruct d as [dec|].
    + destruct (Decimal.eqb v dec) eqn:He.
      * split; [intros _; now exists dec | lia].
      * split; [lia | intros (dec' & [= <-] & H); congruence].
    + split; [lia | intros (dec & H & _); discriminate].
  - destruct d; split; first [lia | contradiction].
Qed.

(** X11: the matcher reports a name exactly when it is the uppercase name of
    one of the six fields and the field's value matches the token: some
    sub-token of a textual value normalizes to the normalized token, or a
    decimal value equals the number the token is parsed as.  A field
    holding [None] is never reported. *)
Theorem matchUp_members (token : string) (row : gmap string value)
    (ret : list string) :
  _matchUp token row = Return ret ->
  exists d,
    _parseNumbers (normalizeToken token) = Return d /\
    forall name,
      name ∈ ret <->
      exists key val,
        key ∈ field_keys /\ name = upper key /\ row !! key = Some val /\
        field_matches (normalizeToken token) d val.
Proof.
  unfold _matchUp. intros H.
  destruct (_parseNumbers (normalizeToken token)) as [d|] eqn:Hd;
    [|discriminate].
  cbn [Py.bind] in H. apply match_keys_repeat in H. rewrite app_nil_l in H.
  exists d. split; [reflexivity|]. intros name.
  rewrite H, flat_map_repeat_in. split.
  - intros (key & Hkey & -> & Hn). unfold occurrences_in in Hn.
    destruct (row !! key) as [val|] eqn:Hval; [|lia].
    exists key, val. repeat split; auto. now apply occurrences_pos.
  - intros (key & val & Hkey & -> & Hval & Hm). exists key.
    repeat split; auto. unfold occurrences_in. rewrite Hval.
    now apply occurrences_pos.
Qed.

Lemma bestTag_head x l : ~ is_comment x -> _bestTag (x :: l) = x.
Proof.
  intros Hx. destruct l as [|y l]; [reflexivity|].
  unfold _bestTag. change (length (x :: y :: l) =? 1)%nat with false.
  cbv iota. apply (bestTag_loop_first [] x (y :: l)); [constructor | exact Hx].
Qed.

Lemma prefixed_comment prev u : is_comment (prefixed prev u) <-> u = "COMMENT".
Proof.
  split.
  - intros [H|H]; destruct (prefixed_cases prev u) as [E|E]; rewrite E in H;
      first [discriminate H | now injection H].
  - intros ->. destruct (prefixed_cases prev "COMMENT") as [E|E]; rewrite E;
      [now left | now right].
Qed.

Lemma comments_only prev k :
  Forall is_comment (map (prefixed prev) (repeat "COMMENT" k)).
Proof.
  induction k as [|k IH]; simpl; constructor; [|exact IH].
  now apply prefixed_comment.
Qed.

Lemma upper_comment key :
  key ∈ field_keys -> upper key = "COMMENT" -> key = "comment".
Proof.
  intros Hkey H. apply upper_field_inj; [exact Hkey | | exact H].
  unfold field_keys. do 5 apply list_elem_of_further. apply list_elem_of_here.
Qed.

(** X12: how the final label of a token follows from its matches.  With
    [prev] the match set carried from the token before, the label is that of
    the first field in the order index, name, qty, range_end, unit that
    matches; when only comment matches, it is the comment label if exactly
    one sub-token of the comment matches and "OTHER" if several do; and
    "OTHER" when nothing matches. *)
Theorem final_tag_priority (token : string) (row : gmap string value)
    (ret : list string) (prev : option (list string)) :
  _matchUp token row = Return ret ->
  exists d,
    _parseNumbers (normalizeToken token) = Return d /\
    let n := occurrences_in row (normalizeToken token) d in
    (forall pre key post,
       field_keys = pre ++ key :: post ->
       (forall k, k ∈ pre -> n k = 0) -> 0 < n key -> key <> "comment" ->
       _bestTag (map (prefixed prev) ret) = prefixed prev (upper key)) /\
    ((forall k, k ∈ field_keys -> k <> "comment" -> n k = 0) ->
     (n "comment" = 1 ->
      _bestTag (map (prefixed prev) ret) = prefixed prev "COMMENT") /\
     (n "comment" <> 1 -> _bestTag (map (prefixed prev) ret) = "OTHER")).
Proof.
  unfold _matchUp. intros H.
  destruct (_parseNumbers (normalizeToken token)) as [d|] eqn:Hd;
    [|discriminate].
  cbn [Py.bind] in H. apply match_keys_repeat in H. rewrite app_nil_l in H.
  exists d. split; [reflexivity|]. cbv zeta.
  set (n := occurrences_in row (normalizeToken token) d) in *.
  split.
  - intros pre key post Hkeys Hpre Hn Hkey.
    rewrite H, Hkeys, flat_map_app, (flat_map_repeat_none pre n Hpre).
    cbn [flat_map app].
    destruct (n key) as [|m]; [lia|]. cbn [repeat app map].
    apply bestTag_head. rewrite prefixed_comment. intros Hu.
    apply Hkey, upper_comment; [|exact Hu].
    rewrite Hkeys. apply elem_of_app. right. apply list_elem_of_here.
  - intros Hzero.
    assert (Hret : ret = repeat "COMMENT" (n "comment")).
    { rewrite H.
      change field_keys
        with (["index"; "name"; "qty"; "range_end"; "unit"] ++ ["comment"]).
      rewrite flat_map_app, flat_map_repeat_none.
      - cbn [flat_map app]. now rewrite app_nil_r.
      - intros k Hk. apply Hzero.
        + unfold field_keys.
          repeat (apply elem_of_cons in Hk as [-> | Hk];
                  [repeat constructor|]).
          now apply elem_of_nil in Hk.
        + intros ->.
          repeat (apply elem_of_cons in Hk as [Hk | Hk]; [discriminate|]).
          now apply elem_of_nil in Hk. }
    rewrite Hret. split.
    + intros ->. reflexivity.
    + intros Hn. destruct (n "comment") as [|[|m]]; [reflexivity | lia |].
      unfold _bestTag.
      rewrite length_map, repeat_length. cbn [Nat.eqb].
      apply bestTag_loop_comments, comments_only.
Qed.

End MatcherMore.

Lemma matchUp_frame_witness :
  Plain._matchUp "2" (delete "input" Examples.flour)
  = Plain._matchUp "2" Examples.flour.
Proof.
  apply (matchUp_frame Plain.tokenize Plain.normalizeToken Plain.unclump).
  intros key Hkey. apply lookup_delete_ne.
  intros <-. now apply input_not_field in Hkey.
Defined.

Lemma matchUp_members_witness :
  exists d,
    Plain._parseNumbers "salt" = Return d /\
    forall name,
      name ∈ ["NAME"; "NAME"] <->
      exists key val,
        key ∈ field_keys /\ name = upper key /\
        Examples.salt !! key = Some val /\
        field_matches Plain.tokenize Plain.normalizeToken "salt" d val.
Proof.
  apply (matchUp_members Plain.tokenize Plain.normalizeToken Plain.unclump
           "salt" Examples.salt ["NAME"; "NAME"]).
  vm_compute. reflexivity.
Defined.

(** A numeric index equal to the quantity comes first: "2" is labelled
    B-INDEX, not B-QTY. *)
Lemma final_tag_priority_witness :
  let row := <["index" := VDec Examples.two]> Examples.flour in
  Plain._matchUp "2" row = Return ["INDEX"; "QTY"] /\
  _bestTag (map (prefixed None) ["INDEX"; "QTY"]) = "B-INDEX".
Proof.
  intros row.
  assert (H : Plain._matchUp "2" row = Return ["INDEX"; "QTY"])
    by (vm_compute; reflexivity).
  split; [exact H|].
  destruct (final_tag_priority Plain.tokenize Plain.normalizeToken
              Plain.unclump "2" row ["INDEX"; "QTY"] None H)
    as (d & Hd & Hfirst & _).
  assert (Hd2 : d = Some (Decimal.Fin 2)).
  { assert (Hp : Plain._parseNumbers "2" = Return (Some (Decimal.Fin 2)))
      by (vm_compute; reflexivity).
    unfold Plain._parseNumbers, Plain.normalizeToken in *. congruence. }
  subst d.
  apply (Hfirst [] "index" ["name"; "qty"; "range_end"; "unit"; "comment"]).
  - reflexivity.
  - intros k Hk. now apply elem_of_nil in Hk.
  - vm_compute. lia.
  - discriminate.
Defined.

(** ** The row translator *)

Lemma upper_field_alphabet u :
  u ∈ map upper field_keys ->
  ("B-" +:+ u) ∈ tag_alphabet /\ ("I-" +:+ u) ∈ tag_alphabet.
Proof.
  intros Hu. apply list_elem_of_In, in_map_iff in Hu as (key & <- & Hkey).
  unfold tag_alphabet. split; apply list_elem_of_further, list_elem_of_In,
    in_flat_map; exists key; (split; [exact Hkey|]);
    [now left | right; now left].
Qed.

Section TranslatorMore.

Variable cleanUnicodeFractions : string -> string.
Variable tokenize : string -> list string.
Variable normalizeToken : string -> string.
Variable unclump : string -> string.
Variable getFeatures : string -> nat -> list string -> list string.
Variable joinLine : list string -> string.

Local Abbreviation _parseNumbers := (_parseNumbers unclump).
Local Abbreviation _matchUp := (_matchUp tokenize normalizeToken unclump).
Local Abbreviation match_keys := (match_keys tokenize normalizeToken).
Local Abbreviation match_all := (match_all tokenize normalizeToken unclump).
Local Abbreviation translate_row :=
  (translate_row cleanUnicodeFractions tokenize normalizeToken unclump
     getFeatures joinLine).

Lemma match_all_lookup row tokens pairs i t tags :
  match_all row tokens = Return pairs ->
  pairs !! i = Some (t, tags) ->
  _matchUp t row = Return tags.
Proof.
  unfold match_all. revert pairs i.
  induction tokens as [|t0 tokens IH]; intros pairs i; cbn [comprehension].
  - intros [= <-]. discriminate.
  - destruct (_matchUp t0 row) as [tags0|] eqn:H0; [|discriminate].
    cbn [Py.bind].
    destruct (comprehension _ tokens) as [ps|] eqn:Hps; [|discriminate].
    cbn [Py.bind]. intros [= <-].
    destruct i as [|i]; simpl.
    + intros [= <- <-]. exact H0.
    + now apply IH.
Qed.

Lemma matchUp_names t row tags name :
  _matchUp t row = Return tags -> name ∈ tags -> name ∈ map upper field_keys.
Proof.
  unfold _matchUp.
  destruct (_parseNumbers (normalizeToken t)) as [d|]; [|discriminate].
  cbn [Py.bind]. intros H Hname.
  apply match_keys_repeat in H. rewrite app_nil_l in H. subst tags.
  now apply flat_map_repeat_elem in Hname.
Qed.

(** X13: every final tag the translator writes is one of thirteen labels:
    "OTHER", or "B-" or "I-" followed by INDEX, NAME, QTY, RANGE_END, UNIT
    or COMMENT. *)
Theorem final_tags_alphabet (row : gmap string value) (tokens : list string)
    (pairs : list (string * list string)) :
  match_all row tokens = Return pairs ->
  forall i token labels,
    _addPrefixes pairs !! i = Some (token, labels) ->
    _bestTag labels ∈ tag_alphabet.
Proof.
  intros Hall i token labels Hi. rewrite addPrefixes_scan in Hi.
  destruct (prefix_scan_lookup_inv _ _ _ _ _ Hi) as (tags & Hpair & ->).
  pose proof (match_all_lookup _ _ _ _ _ _ Hall Hpair) as Hm.
  destruct (bestTag_cases (map (prefixed
              (match i with O => None | S j => snd <$> pairs !! j end)) tags))
    as [-> | Hin].
  - apply list_elem_of_here.
  - apply list_elem_of_In, in_map_iff in Hin as (u & <- & Hu).
    apply list_elem_of_In in Hu.
    destruct (upper_field_alphabet u (matchUp_names _ _ _ _ Hm Hu))
      as [HB HI].
    destruct (prefixed_cases
                (match i with O => None | S j => snd <$> pairs !! j end) u)
      as [-> | ->]; assumption.
Qed.

Lemma match_keys_raise token d row keys ret e :
  match_keys token d row keys ret = Raise e ->
  exists pre key post,
    keys = pre ++ key :: post /\
    (forall k', k' ∈ pre -> is_Some (row !! k')) /\
    row !! key = None /\ e = KeyError key.
Proof.
  revert ret. induction keys as [|key keys IH]; intros ret; simpl;
    [discriminate|].
  destruct (row !! key) as [val|] eqn:Hkey.
  - assert (Hgo : forall ret',
              match_keys token d row keys ret' = Raise e ->
              exists pre k post,
                key :: keys = pre ++ k :: post /\
                (forall k', k' ∈ pre -> is_Some (row !! k')) /\
                row !! k = None /\ e = KeyError k).
    { intros ret' H.
      destruct (IH _ H) as (pre & k & post & -> & Hpre & Hn & He).
      exists (key :: pre), k, post. split; [reflexivity|].
      split; [|auto].
      intros k' [-> | Hk']%elem_of_cons; [now rewrite Hkey | now apply Hpre]. }
    destruct val as [s|dec|]; [apply Hgo | |]; destruct d; apply Hgo.
  - intros [= <-]. exists [], key, keys. split; [reflexivity|].
    split; [|auto]. intros k' Hk'. now apply elem_of_nil in Hk'.
Qed.

Lemma matchUp_key_error t row k :
  _matchUp t row = Raise (KeyError k) ->
  exists pre post,
    field_keys = pre ++ k :: post /\
    (forall k', k' ∈ pre -> is_Some (row !! k')) /\
    row !! k = None.
Proof.
  unfold _matchUp.
  destruct (_parseNumbers (normalizeToken t)) as [d|e'] eqn:Hd;
    cbn [Py.bind].
  - intros H.
    apply match_keys_raise in H as (pre & key & post & Hkeys & Hpre & Hn & He).
    injection He as ->. eauto.
  - intros [= ->]. apply parseNumbers_raises in Hd as [Hd|Hd]; discriminate Hd.
Qed.

Lemma match_all_raise row tokens e :
  match_all row tokens = Raise e ->
  exists t, t ∈ tokens /\ _matchUp t row = Raise e.
Proof.
  unfold match_all.
  induction tokens as [|t tokens IH]; cbn [comprehension]; [discriminate|].
  destruct (_matchUp t row) as [tags|e'] eqn:Ht; cbn [Py.bind].
  - destruct (comprehension _ tokens) as [ps|e'']; cbn [Py.bind];
      [discriminate|].
    intros [= <-]. destruct IH as (t' & Hin & Ht'); [reflexivity|].
    exists t'. split; [now apply list_elem_of_further | exact Ht'].
  - intros [= <-]. exists t. split; [apply list_elem_of_here | exact Ht].
Qed.

(** X14: a [KeyError] of the translator always names a key the record
    lacks: 'input' when the display string is absent, and otherwise one of
    the six fields, absent from the record while every field before it in
    the matcher's order is present. *)
Theorem translate_row_key_error (row : gmap string value) (k : string) :
  fst (translate_row row) = Raise (KeyError k) ->
  (k = "input" /\ row !! "input" = None)
  \/ (exists pre post,
        field_keys = pre ++ k :: post /\
        (forall k', k' ∈ pre -> is_Some (row !! k')) /\
        row !! k = None).
Proof.
  unfold translate_row.
  destruct (row !! "input") as [[input| |]|] eqn:Hin; cbn [fst];
    try discriminate.
  - cbv zeta.
    destruct (match_all _ _) as [pairs|e'] eqn:Hall; cbn [Py.bind];
      [discriminate|].
    intros [= ->]. right.
    apply match_all_raise in Hall as (t & _ & Ht).
    apply matchUp_key_error in Ht as (pre & post & Hkeys & Hpre & Hnone).
    assert (Hfield : forall k', k' ∈ pre ++ k :: post -> "input" <> k').
    { intros k' Hk' <-. rewrite <- Hkeys in Hk'.
      now apply input_not_field in Hk'. }
    exists pre, post. split; [exact Hkeys|]. split.
    + intros k' Hk'. rewrite <- (lookup_delete_ne row "input" k').
      * now apply Hpre.
      * apply Hfield, elem_of_app. now left.
    + rewrite <- (lookup_delete_ne row "input" k); [exact Hnone|].
      apply Hfield, elem_of_app. right. apply list_elem_of_here.
  - intros [= <-]. now left.
Qed.

Lemma match_all_ext row row' tokens :
  (forall key, key ∈ field_keys -> row !! key = row' !! key) ->
  match_all row tokens = match_all row' tokens.
Proof.
  intros H. unfold match_all.
  induction tokens as [|t tokens IH]; cbn [comprehension]; [reflexivity|].
  rewrite IH. unfold _matchUp at 1 3.
  destruct (_parseNumbers (normalizeToken t)) as [d|]; [|reflexivity].
  cbn [Py.bind]. now rewrite (match_keys_ext _ _ _ _ row row' field_keys []).
Qed.

(** X15: the output of a translation depends on the record through 'input'
    and the six fields only; any other column of the record is ignored. *)
Theorem translate_row_frame (row row' : gmap string value) :
  row !! "input" = row' !! "input" ->
  (forall key, key ∈ field_keys -> row !! key = row' !! key) ->
  fst (translate_row row) = fst (translate_row row').
Proof.
  intros Hin Hkeys. unfold translate_row. rewrite <- Hin.
  destruct (row !! "input") as [[input| |]|]; try reflexivity.
  cbn [fst]. cbv zeta.
  rewrite (match_all_ext (delete "input" row) (delete "input" row'));
    [reflexivity|].
  intros key Hkey.
  assert (Hne : "input" <> key)
    by (intros <-; now apply input_not_field in Hkey).
  rewrite !lookup_delete_ne by exact Hne. now apply Hkeys.
Qed.

End TranslatorMore.

Lemma final_tags_alphabet_witness :
  _bestTag ["B-QTY"] ∈ tag_alphabet.
Proof.
  assert (H : match_all Plain.tokenize Plain.normalizeToken Plain.unclump
                (delete "input" Examples.flour) ["2"; "cups"; "flour"]
              = Return [("2", ["QTY"]); ("cups", ["UNIT"]);
                        ("flour", ["NAME"])])
    by (vm_compute; reflexivity).
  assert (H0 : _addPrefixes [("2", ["QTY"]); ("cups", ["UNIT"]);
                             ("flour", ["NAME"])] !! 0%nat
               = Some ("2", ["B-QTY"])) by reflexivity.
  exact (final_tags_alphabet Plain.tokenize Plain.normalizeToken
           Plain.unclump _ _ _ H 0%nat "2" ["B-QTY"] H0).
Defined.

Lemma translate_row_key_error_witness :
  ("index" = "input" /\ Examples.flour_short !! "input" = None)
  \/ (exists pre post,
        field_keys = pre ++ "index" :: post /\
        (forall k', k' ∈ pre -> is_Some (Examples.flour_short !! k')) /\
        Examples.flour_short !! "index" = None).
Proof.
  apply (translate_row_key_error Plain.cleanUnicodeFractions Plain.tokenize
           Plain.normalizeToken Plain.unclump Plain.getFeatures
           Plain.joinLine Examples.flour_short "index").
  vm_compute. reflexivity.
Defined.

Lemma translate_row_frame_witness :
  fst (Plain.translate_row (<["source" := VStr "cookbook"]> Examples.flour))
  = fst (Plain.translate_row Examples.flour).
Proof.
  apply (translate_row_frame Plain.cleanUnicodeFractions Plain.tokenize
           Plain.normalizeToken Plain.unclump Plain.getFeatures
           Plain.joinLine).
  - reflexivity.
  - intros key Hkey. apply lookup_insert_ne.
    intros <-. unfold field_keys in Hkey.
    repeat (apply elem_of_cons in Hkey as [Hkey | Hkey]; [discriminate|]).
    now apply elem_of_nil in Hkey.
Defined.

Section MatcherNumbers.

Variable tokenize : string -> list string.
Variable normalizeToken : string -> string.
Variable unclump : string -> string.

Local Abbreviation _matchUp := (_matchUp tokenize normalizeToken unclump).

(** X16: matching a number is exact after rounding.  When a token reads as
    the simple fraction [a/b], a field holding the decimal [v] is reported
    exactly when [v] equals a/b rounded to hundredths: 0.33 is matched by
    "1/3", 0.333 is not. *)
Theorem matchUp_fraction_field (token : string) (row : gmap string value)
    (ret : list string) (key : string) (v : Q) (a b : ascii) :
  _matchUp token row = Return ret ->
  key ∈ field_keys -> row !! key = Some (VDec (Decimal.Fin v)) ->
  Re.digit a = true -> Re.digit b = true -> b <> "0"%char ->
  unclump (normalizeToken token) = String a (String "/" (String b "")) ->
  (upper key ∈ ret <->
   v == round_hundredths 0 (digit_value a) (digit_value b)).
Proof.
  intros H Hkey Hval Ha Hb Hnz Htok. unfold _matchUp in H.
  assert (Hd : _parseNumbers unclump (normalizeToken token)
               = Return (Some (Decimal.Fin
                   (round_hundredths 0 (digit_value a) (digit_value b))))).
  { rewrite (parseNumbers_fraction_text unclump _ a b Ha Hb (or_introl Htok)).
    pose proof (digit_value_range a Ha). pose proof (digit_value_range b Hb).
    apply simple_fraction_value; [lia|].
    assert (digit_value b <> 0%Z)
      by (intros Hz; now apply (digit_value_zero b Hb) in Hz).
    lia. }
  rewrite Hd in H. cbn [Py.bind] in H.
  apply match_keys_repeat in H. rewrite app_nil_l in H.
  rewrite H, flat_map_repeat_in. unfold occurrences_in. split.
  - intros (key' & Hkey' & Heq & Hn).
    apply (upper_field_inj _ _ Hkey Hkey') in Heq. subst key'.
    rewrite Hval in Hn. simpl in Hn.
    destruct (Qeq_bool v _) eqn:Hq; [now apply Qeq_bool_iff in Hq | lia].
  - intros Hq. exists key. repeat split; auto.
    rewrite Hval. simpl. apply Qeq_bool_iff in Hq. rewrite Hq. lia.
Qed.

End MatcherNumbers.

Lemma matchUp_fraction_field_witness :
  let third := <["qty" := VDec (Decimal.Fin (33 # 100))]> Examples.flour in
  upper "qty" ∈ ["QTY"] <-> (33 # 100 == round_hundredths 0 1 3).
Proof.
  intros third.
  apply (matchUp_fraction_field Plain.tokenize Plain.normalizeToken
           Plain.unclump "1/3" third ["QTY"] "qty" (33 # 100) "1" "3");
    try reflexivity.
  - unfold field_keys. do 2 apply list_elem_of_further.
    apply list_elem_of_here.
  - discriminate.
Defined.

(** ** Tokens in sequence *)

Lemma prefix_scan_app prevTags d1 d2 :
  prefix_scan prevTags (d1 ++ d2)
  = prefix_scan prevTags d1
    ++ prefix_scan (match last d1 with
                    | Some p => Some (snd p)
                    | None => prevTags
                    end) d2.
Proof.
  revert prevTags. induction d1 as [|[token tags] d1 IH]; intros prevTags;
    [reflexivity|].
  change (prefix_scan prevTags (((token, tags) :: d1) ++ d2))
    with ((token, map (prefixed prevTags) tags)
            :: prefix_scan (Some tags) (d1 ++ d2)).
  rewrite IH. cbn [prefix_scan app]. do 2 f_equal.
  destruct d1 as [|p d1]; [reflexivity|].
  rewrite last_cons_cons.
  destruct (last (p :: d1)) eqn:E; [reflexivity|].
  apply last_None in E. discriminate E.
Qed.

(** X17: prefixing works token by token from the left: the labels of the
    tokens read so far do not change when more tokens follow, and the labels
    of the tokens that follow depend on what came before only through the
    match set of the last token. *)
Theorem addPrefixes_app (d1 d2 : list (string * list string)) :
  _addPrefixes (d1 ++ d2)
  = _addPrefixes d1
    ++ prefix_scan (match last d1 with
                    | Some p => Some (snd p)
                    | None => None
                    end) d2 /\
  take (length d1) (_addPrefixes (d1 ++ d2)) = _addPrefixes d1.
Proof.
  rewrite !addPrefixes_scan, prefix_scan_app. split; [reflexivity|].
  assert (Hlen : length (prefix_scan None d1) = length d1).
  { rewrite <- (length_map fst (prefix_scan None d1)), prefix_scan_fst.
    apply length_map. }
  rewrite <- Hlen. apply take_app_length.
Qed.

Section FirstFailure.

Variable cleanUnicodeFractions : string -> string.
Variable tokenize : string -> list string.
Variable normalizeToken : string -> string.
Variable unclump : string -> string.
Variable getFeatures : string -> nat -> list string -> list string.
Variable joinLine : list string -> string.

Local Abbreviation _matchUp := (_matchUp tokenize normalizeToken unclump).
Local Abbreviation match_all := (match_all tokenize normalizeToken unclump).
Local Abbreviation translate_row :=
  (translate_row cleanUnicodeFractions tokenize normalizeToken unclump
     getFeatures joinLine).

Lemma match_all_first_failure row pre t post e :
  (forall t', t' ∈ pre -> exists tags, _matchUp t' row = Return tags) ->
  _matchUp t row = Raise e ->
  match_all row (pre ++ t :: post) = Raise e.
Proof.
  intros Hpre Ht. unfold match_all.
  induction pre as [|t0 pre IH]; cbn [app comprehension].
  - now rewrite Ht.
  - destruct (Hpre t0) as [tags0 H0]; [apply list_elem_of_here|].
    rewrite H0. cbn [Py.bind]. rewrite IH; [reflexivity|].
    intros t' Ht'. apply Hpre. now apply list_elem_of_further.
Qed.

(** X18: tokens are matched from left to right and the first failure ends
    the translation: it is the exception of the first token that fails, and
    no output is produced for the tokens before it. *)
Theorem translate_row_first_failure (row : gmap string value)
    (input : string) (pre : list string) (t : string) (post : list string)
    (e : exn) :
  row !! "input" = Some (VStr input) ->
  tokenize (cleanUnicodeFractions input) = pre ++ t :: post ->
  (forall t', t' ∈ pre -> exists tags, _matchUp t' row = Return tags) ->
  _matchUp t row = Raise e ->
  fst (translate_row row) = Raise e.
Proof.
  intros Hin Htok Hpre Ht. unfold translate_row. rewrite Hin.
  cbn [fst]. cbv zeta. rewrite Htok.
  assert (Hsame : forall t', _matchUp t' (delete "input" row) = _matchUp t' row).
  { intros t'. unfold _matchUp.
    destruct (_parseNumbers unclump (normalizeToken t')); [|reflexivity].
    cbn [Py.bind]. apply match_keys_ext. intros key Hkey.
    apply lookup_delete_ne. intros <-. now apply input_not_field in Hkey. }
  rewrite (match_all_first_failure (delete "input" row) pre t post e);
    [reflexivity | | now rewrite Hsame].
  intros t' Ht'. rewrite Hsame. now apply Hpre.
Qed.

End FirstFailure.

Lemma addPrefixes_app_witness :
  take 1 (_addPrefixes ([("olive", ["NAME"])] ++ [("oil", ["NAME"])]))
  = _addPrefixes [("olive", ["NAME"])].
Proof.
  exact (proj2 (addPrefixes_app [("olive", ["NAME"])] [("oil", ["NAME"])])).
Defined.

Lemma translate_row_first_failure_witness :
  fst (Plain.translate_row
         (<["input" := VStr "2 cups 1/0 flour"]> Examples.flour))
  = Raise ZeroDivisionError.
Proof.
  apply (translate_row_first_failure Plain.cleanUnicodeFractions
           Plain.tokenize Plain.normalizeToken Plain.unclump
           Plain.getFeatures Plain.joinLine
           (<["input" := VStr "2 cups 1/0 flour"]> Examples.flour)
           "2 cups 1/0 flour" ["2"; "cups"] "1/0" ["flour"]).
  - reflexivity.
  - reflexivity.
  - intros t' Ht'.
    repeat (apply elem_of_cons in Ht' as [-> | Ht']; [vm_compute; eauto|]).
    now apply elem_of_nil in Ht'.
  - vm_compute. reflexivity.
Defined.
